(** * Barman: cloud backup uploader, WAL archiver status and WAL catalog

    A shallow embedding of the parts of Barman that move PostgreSQL data
    to an object store ([barman/clients/cloud_backup.py]) and that report
    the status of WAL archiving ([barman/wal_archiver.py]), with the
    properties the specification states about them. The first part holds
    the embedding, the second the properties.

    Conventions of the embedding:
    - Python objects that are mutated in place (the upload buffer, the
      dict of open tar archives) become explicit state that every
      operation takes and returns;
    - calls to the object store are recorded, in order, in a log of
      [cloud_call]s: the log is what the outside world observes;
    - a Python exception is the [Raise] alternative of [result], or the
      [option exn] returned beside the state an operation leaves;
    - collaborators whose code is outside the embedded files ([urlparse],
      boto3, the PostgreSQL connection, [barman.fs.path_allowed], the tar
      encoder, the file system) are parameters: section variables or the
      fields of a record of collaborators. *)

From Stdlib Require Import ZArith String Ascii Bool Lia Sorted List.
From Stdlib Require Import DecimalString DecimalN DecimalPos.
From stdpp Require gmap strings.
Import ListNotations.

Set Warnings "-register-all".

Local Open Scope string_scope.
Local Open Scope Z_scope.
Local Open Scope list_scope.

Infix "+:+" := String.append (at level 60, right associativity) : string_scope.

#[local] Arguments String.append : simpl nomatch.

(** ** Python values shared by the modules *)

Module Py.

(** An exception instance: the names of its class and of the classes it
    derives from (its method resolution order), its message, and the S3
    error code carried by a botocore [ClientError]. *)
Record exn := {
  exn_mro : list string;
  exn_msg : string;
  exn_code : string
}.

Definition exn_class (e : exn) : string := hd "" (exn_mro e).

(** [except C] catches [e] when [C] is in the class hierarchy of [e]. *)
Definition isinstance (e : exn) (c : string) : bool :=
  existsb (String.eqb c) (exn_mro e).

Definition ValueError (msg : string) : exn :=
  {| exn_mro := ["ValueError"; "Exception"; "BaseException"];
     exn_msg := msg; exn_code := "" |}.

Definition OSError (msg : string) : exn :=
  {| exn_mro := ["OSError"; "Exception"; "BaseException"];
     exn_msg := msg; exn_code := "" |}.

Inductive result (A : Type) : Type :=
| Ok (a : A)
| Raise (e : exn).
Arguments Ok {A} a.
Arguments Raise {A} e.

Definition bind {A B} (r : result A) (k : A -> result B) : result B :=
  match r with
  | Ok a => k a
  | Raise e => Raise e
  end.

Definition is_ok {A} (r : result A) : bool :=
  match r with Ok _ => true | Raise _ => false end.

(** [s.startswith(p)] *)
Fixpoint startswith (s p : string) {struct p} : bool :=
  match p with
  | EmptyString => true
  | String c p' =>
      match s with
      | EmptyString => false
      | String d s' => Ascii.eqb c d && startswith s' p'
      end
  end.

(** [s[n:]] *)
Fixpoint drop_chars (n : nat) (s : string) : string :=
  match n with
  | O => s
  | S n' => match s with
            | EmptyString => EmptyString
            | String _ s' => drop_chars n' s'
            end
  end.

(** [s.endswith(c)] for a one-character [c]. *)
Fixpoint ends_with_char (c : ascii) (s : string) : bool :=
  match s with
  | EmptyString => false
  | String d EmptyString => Ascii.eqb c d
  | String _ s' => ends_with_char c s'
  end.

(** [os.path.join(a, b)] of [posixpath] for two components: an absolute
    [b] replaces [a]; otherwise a single separator is put between them
    unless [a] is empty or already ends with one. *)
Definition path_join (a b : string) : string :=
  if startswith b "/" then b
  else if String.eqb a "" || ends_with_char "/" a then a +:+ b
  else a +:+ "/" +:+ b.

(** ['%s' % n] for a non-negative integer. *)
Definition str_of_N (n : N) : string :=
  NilEmpty.string_of_uint (N.to_uint n).

End Py.

Import Py.

Notation "'let!' x ':=' r 'in' k" := (Py.bind r (fun x => k))
  (at level 10, x name, r at level 100, k at level 200).

Abbreviation bytes := (list Byte.byte).

(** ** The multipart tar uploader ([S3TarUploader]) *)

Definition DEFAULT_CHUNK_SIZE : Z := Z.shiftl 10 21.

(** The handle of an uploaded part, as [CloudInterface.upload_part]
    returns it. *)
Record part := {
  PartNumber : Z;
  ETag : string
}.

(** The calls made on the [CloudInterface], with their arguments. The
    multipart handle [mpu] is passed as the uploader holds it: [None]
    until a multipart upload has been created, then the upload id. *)
Inductive cloud_call :=
| create_multipart_upload (key : string)
| upload_part (mpu : option string) (key : string) (body : bytes)
    (part_number : Z)
| complete_multipart_upload (mpu : option string) (key : string)
    (parts : list part)
| upload_fileobj (key : string) (data : bytes).

(** A [tarfile.TarInfo] as [add_fileobj] fills it. *)
Record tarinfo := {
  ti_name : string;
  ti_size : Z;
  ti_mode : Z;
  ti_uid : Z;
  ti_gid : Z
}.

(** The calls made on a [tarfile.TarFile]: [tar.add(name, arcname,
    recursive)] and [tar.addfile(tarinfo, fileobj)]. *)
Inductive tar_call :=
| tar_add (name arcname : string) (recursive : bool)
| tar_addfile (ti : tarinfo) (data : bytes).

(** The uploader; [tar] is the list of the members added to [self.tar],
    the tar archive that writes into this uploader. *)
Record S3TarUploader := {
  key : string;
  mpu : option string;
  chunk_size : Z;
  buffer : bytes;
  counter : Z;
  parts : list part;
  tar : list tar_call
}.

Module S3Tar.
Section Uploader.

(** What the object store answers: the upload id of a new multipart
    upload on a key, and the ETag of an uploaded part. *)
Variable upload_id_of : string -> string.
Variable etag_of : string -> Z -> bytes -> string.

(** [S3TarUploader.__init__] *)
Definition init (k : string) (cs : Z) : S3TarUploader :=
  {| key := k; mpu := None; chunk_size := cs; buffer := [];
     counter := 1; parts := []; tar := [] |}.

(** [S3TarUploader.flush]: the buffer is rewound, uploaded as the part
    numbered [counter], and truncated. A handle returned by
    [create_multipart_upload] is a non-empty dict, hence true. *)
Definition flush (u : S3TarUploader) (log : list cloud_call)
  : S3TarUploader * list cloud_call :=
  let '(m, log1) :=
    match mpu u with
    | Some m => (m, log)
    | None => (upload_id_of (key u), log ++ [create_multipart_upload (key u)])
    end in
  let p := {| PartNumber := counter u;
              ETag := etag_of (key u) (counter u) (buffer u) |} in
  ({| key := key u; mpu := Some m; chunk_size := chunk_size u;
      buffer := []; counter := counter u + 1;
      parts := parts u ++ [p]; tar := tar u |},
   log1 ++ [upload_part (Some m) (key u) (buffer u) (counter u)]).

Definition buffer_write (u : S3TarUploader) (buf : bytes) : S3TarUploader :=
  {| key := key u; mpu := mpu u; chunk_size := chunk_size u;
     buffer := buffer u ++ buf; counter := counter u; parts := parts u;
     tar := tar u |}.

(** [S3TarUploader.write]; [buffer.tell()] is the buffer's length, the
    position being at its end after every write and at 0 after a flush. *)
Definition write (u : S3TarUploader) (log : list cloud_call) (buf : bytes)
  : S3TarUploader * list cloud_call :=
  if chunk_size u <? Z.of_nat (length (buffer u)) then
    let '(u', log') := flush u log in (buffer_write u' buf, log')
  else (buffer_write u buf, log).

Definition write_all (ws : list bytes)
  (st : S3TarUploader * list cloud_call) : S3TarUploader * list cloud_call :=
  fold_left (fun st buf => write (fst st) (snd st) buf) ws st.

(** [S3TarUploader.close]: [tar.close()] writes the end of the archive
    (the writes [trailer]), the remainder is flushed and the multipart
    upload completed. *)
Definition close (trailer : list bytes) (u : S3TarUploader)
  (log : list cloud_call) : S3TarUploader * list cloud_call :=
  let '(u1, log1) := write_all trailer (u, log) in
  let '(u2, log2) := flush u1 log1 in
  (u2, log2 ++ [complete_multipart_upload (mpu u2) (key u2) (parts u2)]).

(** *** The chunking the specification describes

    Writes accumulate in the current chunk; a write that finds the chunk
    longer than the chunk size starts a new one; closing ends the last
    chunk, whatever it holds. *)
Fixpoint spec_chunks (cs : Z) (cur : bytes) (ws : list bytes) : list bytes :=
  match ws with
  | [] => [cur]
  | w :: ws' =>
      if cs <? Z.of_nat (length cur) then cur :: spec_chunks cs w ws'
      else spec_chunks cs (cur ++ w) ws'
  end.

(** The [upload_part] calls and the part handles for a list of chunks,
    numbered from [c]. *)
Fixpoint part_calls (m k : string) (c : Z) (bodies : list bytes)
  : list cloud_call :=
  match bodies with
  | [] => []
  | b :: bs => upload_part (Some m) k b c :: part_calls m k (c + 1) bs
  end.

Fixpoint part_handles (k : string) (c : Z) (bodies : list bytes)
  : list part :=
  match bodies with
  | [] => []
  | b :: bs => {| PartNumber := c; ETag := etag_of k c b |}
               :: part_handles k (c + 1) bs
  end.

(** [c, c+1, ..., c+n-1] *)
Fixpoint Zseq (c : Z) (n : nat) : list Z :=
  match n with
  | O => []
  | S n' => c :: Zseq (c + 1) n'
  end.

Definition is_complete (c : cloud_call) : bool :=
  match c with complete_multipart_upload _ _ _ => true | _ => false end.

(** The upload id an uploader uses from its next flush on, and the call
    that flush makes first when no multipart upload exists yet. *)
Definition handle (u : S3TarUploader) : string :=
  match mpu u with
  | Some m => m
  | None => upload_id_of (key u)
  end.

Definition creation (u : S3TarUploader) : list cloud_call :=
  match mpu u with
  | Some _ => []
  | None => [create_multipart_upload (key u)]
  end.

End Uploader.
End S3Tar.

(** ** The upload controller ([S3UploadController]) *)

(** A directory as [os.walk] lists it: its sub-directories, by name, and
    the names of its other entries. *)
Inductive tree :=
| Dir (subdirs : list (string * tree)) (files : list string).

(** The collaborators of the uploader whose code is not in
    [cloud_backup.py]: the object store, the tar encoder (the writes a
    [TarFile] issues on its file object for a call, given the members
    added before, and when it is closed), [barman.fs.path_allowed], the
    file system, and the constants of [barman.postgres_plumbing]. *)
Record collaborators := {
  upload_id_of : string -> string;
  etag_of : string -> Z -> bytes -> string;
  tar_writes : list tar_call -> tar_call -> list bytes;
  tar_close_writes : list tar_call -> list bytes;
  path_allowed :
    option (list string) -> option (list string) -> string -> bool -> bool;
  fs_dir : string -> option tree;
  fs_exists : string -> bool;
  EXCLUDE_LIST : list string;
  PGDATA_EXCLUDE_LIST : list string;
  server_major_version : string
}.

(** [self.s3_list]: a dict from destination names to uploaders or [None],
    kept in insertion order. *)
Record S3UploadController := {
  key_prefix : string;
  compression : option string;
  s3_list : list (string * option S3TarUploader)
}.

(** The methods called on the controller, with their arguments. *)
Inductive controller_call :=
| upload_directory_call (label src dst : string)
    (exclude include : option (list string))
| add_file_call (label src dst path : string) (optional : bool)
| add_fileobj_call (label : string) (fileobj : bytes) (dst path : string)
    (mode uid gid : option Z)
| upload_fileobj_call (label : string) (fileobj : bytes) (dst : string).

Module Controller.

(** [name in d] and [d[name]] *)
Fixpoint dict_get {V : Type} (k : string) (d : list (string * V)) : option V :=
  match d with
  | [] => None
  | (k', v) :: d' => if String.eqb k k' then Some v else dict_get k d'
  end.

(** [d[name] = v]: the value of an existing key is replaced where it
    stands, a new key is added at the end. *)
Fixpoint dict_set {V : Type} (k : string) (v : V) (d : list (string * V))
  : list (string * V) :=
  match d with
  | [] => [(k, v)]
  | (k', v') :: d' =>
      if String.eqb k k' then (k', v) :: d' else (k', v') :: dict_set k v d'
  end.

(** [os.walk(src)], top-down: each directory with the components of its
    path below [src], the names of its sub-directories and of its files. *)
Fixpoint os_walk (rel : list string) (t : tree)
  : list (list string * list string * list string) :=
  match t with
  | Dir subdirs files =>
      (rel, List.map fst subdirs, files)
      :: List.flat_map (fun p => os_walk (rel ++ [fst p]) (snd p)) subdirs
  end.

(** The [root] that [os.walk(src)] yields for the directory [rel] below
    [src], and [os.path.relpath(root, src)]. *)
Definition walk_root (src : string) (rel : list string) : string :=
  fold_left path_join rel src.

Definition relpath (rel : list string) : string :=
  match rel with
  | [] => "."
  | _ => String.concat "/" rel
  end.

(** The members of the tar archive of a destination, and whether the
    destination has an open archive. *)
Definition members (c : S3UploadController) (dst : string) : list tar_call :=
  match dict_get dst (s3_list c) with
  | Some (Some u) => tar u
  | _ => []
  end.

Definition opened (c : S3UploadController) (dst : string) : bool :=
  match dict_get dst (s3_list c) with
  | Some (Some _) => true
  | _ => false
  end.

Section WithCollaborators.

Variable E : collaborators.

(** [S3UploadController.__init__] *)
Definition init (prefix : string) (compr : option string) : S3UploadController :=
  {| key_prefix := if startswith prefix "/" then drop_chars 1 prefix else prefix;
     compression := compr;
     s3_list := [] |}.

(** [_build_dest_name] *)
Definition _build_dest_name (c : S3UploadController) (name : string) : string :=
  match compression c with
  | Some "gz" => name +:+ ".tar.gz"
  | Some "bz2" => name +:+ ".tar.bz2"
  | _ => name +:+ ".tar"
  end.

Definition set_s3_list (c : S3UploadController)
  (d : list (string * option S3TarUploader)) : S3UploadController :=
  {| key_prefix := key_prefix c; compression := compression c; s3_list := d |}.

(** [_get_tar]: the uploader of [name], created when the dict has no
    entry for [name] or holds [None] there. *)
Definition _get_tar (c : S3UploadController) (name : string)
  : S3UploadController * S3TarUploader :=
  match dict_get name (s3_list c) with
  | Some (Some u) => (c, u)
  | _ =>
      let u := S3Tar.init (path_join (key_prefix c) (_build_dest_name c name))
                 DEFAULT_CHUNK_SIZE in
      (set_s3_list c (dict_set name (Some u) (s3_list c)), u)
  end.

Definition set_tar (u : S3TarUploader) (ms : list tar_call) : S3TarUploader :=
  {| key := key u; mpu := mpu u; chunk_size := chunk_size u;
     buffer := buffer u; counter := counter u; parts := parts u; tar := ms |}.

(** One call on the tar archive of an uploader: the archive writes the
    encoded member into the uploader and records the member. *)
Definition tar_apply (st : S3TarUploader * list cloud_call) (call : tar_call)
  : S3TarUploader * list cloud_call :=
  let '(u, log) := st in
  let '(u1, log1) :=
    S3Tar.write_all (upload_id_of E) (etag_of E)
      (tar_writes E (tar u) call) (u, log) in
  (set_tar u1 (tar u ++ [call]), log1).

(** [tar = self._get_tar(dst)] followed by calls on [tar]; the uploader
    is the object the dict holds, so the dict sees its changes. *)
Definition on_tar (dst : string) (calls : list tar_call)
  (c : S3UploadController) (log : list cloud_call)
  : S3UploadController * list cloud_call :=
  let '(c1, u) := _get_tar c dst in
  let '(u1, log1) := fold_left tar_apply calls (u, log) in
  (set_s3_list c1 (dict_set dst (Some u1) (s3_list c1)), log1).

(** The body of the loop of [upload_directory] for one directory of the
    walk. *)
Definition walk_step (exclude include : option (list string)) (src : string)
  (entry : list string * list string * list string) : list tar_call :=
  let '(rel, _, files) := entry in
  let root := walk_root src rel in
  let tar_root := relpath rel in
  if negb (path_allowed E exclude include tar_root true) then []
  else
    tar_add root tar_root false
    :: List.flat_map
         (fun item =>
            let tar_item := path_join tar_root item in
            if negb (path_allowed E exclude include tar_item false) then []
            else [tar_add (path_join root item) tar_item true])
         files.

Definition walk_calls (exclude include : option (list string)) (src : string)
  (t : tree) : list tar_call :=
  List.flat_map (walk_step exclude include src) (os_walk [] t).

(** [upload_directory]; walking a path that is not a directory yields
    nothing. *)
Definition upload_directory (label src dst : string)
  (exclude include : option (list string))
  (c : S3UploadController) (log : list cloud_call)
  : S3UploadController * list cloud_call :=
  on_tar dst
    (match fs_dir E src with
     | Some t => walk_calls exclude include src t
     | None => []
     end) c log.

(** [add_file]; [tar.add] of a path that does not exist raises
    [OSError], after [_get_tar] has run. *)
Definition add_file (label src dst path : string) (optional : bool)
  (c : S3UploadController) (log : list cloud_call)
  : S3UploadController * list cloud_call * option exn :=
  if optional && negb (fs_exists E src) then (c, log, None)
  else if fs_exists E src then (on_tar dst [tar_add src path true] c log, None)
  else (on_tar dst [] c log,
        Some (OSError ("No such file or directory: " +:+ src))).

(** The [TarInfo] that [add_fileobj] builds; the [uid] argument is stored
    in the [gid] field, as the source has it. *)
Definition fileobj_tarinfo (fileobj : bytes) (path : string)
  (mode uid gid : option Z) : tarinfo :=
  let ti0 := {| ti_name := path; ti_size := Z.of_nat (length fileobj);
                ti_mode := 420; ti_uid := 0; ti_gid := 0 |} in
  let ti1 := match mode with
             | Some m => {| ti_name := ti_name ti0; ti_size := ti_size ti0;
                            ti_mode := m; ti_uid := ti_uid ti0;
                            ti_gid := ti_gid ti0 |}
             | None => ti0
             end in
  let ti2 := match uid with
             | Some i => {| ti_name := ti_name ti1; ti_size := ti_size ti1;
                            ti_mode := ti_mode ti1; ti_uid := ti_uid ti1;
                            ti_gid := i |}
             | None => ti1
             end in
  match gid with
  | Some i => {| ti_name := ti_name ti2; ti_size := ti_size ti2;
                 ti_mode := ti_mode ti2; ti_uid := ti_uid ti2;
                 ti_gid := i |}
  | None => ti2
  end.

(** [add_fileobj] *)
Definition add_fileobj (label : string) (fileobj : bytes) (dst path : string)
  (mode uid gid : option Z) (c : S3UploadController) (log : list cloud_call)
  : S3UploadController * list cloud_call :=
  on_tar dst [tar_addfile (fileobj_tarinfo fileobj path mode uid gid) fileobj]
    c log.

(** [upload_fileobj]: a plain upload, outside the tar archives. *)
Definition upload_fileobj_to (label : string) (fileobj : bytes) (dst : string)
  (c : S3UploadController) (log : list cloud_call)
  : S3UploadController * list cloud_call :=
  (c, log ++ [upload_fileobj (path_join (key_prefix c) dst) fileobj]).

(** One iteration of the loop of [close]. *)
Definition close_step (st : S3UploadController * list cloud_call)
  (name : string) : S3UploadController * list cloud_call :=
  let '(c, log) := st in
  let log1 :=
    match dict_get name (s3_list c) with
    | Some (Some u) =>
        snd (S3Tar.close (upload_id_of E) (etag_of E)
               (tar_close_writes E (tar u)) u log)
    | _ => log
    end in
  (set_s3_list c (dict_set name None (s3_list c)), log1).

(** [S3UploadController.close] *)
Definition close (c : S3UploadController) (log : list cloud_call)
  : S3UploadController * list cloud_call :=
  fold_left close_step (List.map fst (s3_list c)) (c, log).

(** A call of a controller method. *)
Definition run_call (call : controller_call)
  (c : S3UploadController) (log : list cloud_call)
  : S3UploadController * list cloud_call * option exn :=
  match call with
  | upload_directory_call label src dst exclude include =>
      (upload_directory label src dst exclude include c log, None)
  | add_file_call label src dst path optional =>
      add_file label src dst path optional c log
  | add_fileobj_call label fileobj dst path mode uid gid =>
      (add_fileobj label fileobj dst path mode uid gid c log, None)
  | upload_fileobj_call label fileobj dst =>
      (upload_fileobj_to label fileobj dst c log, None)
  end.

(** A sequence of calls; the first exception ends it. *)
Fixpoint run_calls (calls : list controller_call)
  (c : S3UploadController) (log : list cloud_call)
  : S3UploadController * list cloud_call * option exn :=
  match calls with
  | [] => (c, log, None)
  | call :: rest =>
      match run_call call c log with
      | (c1, log1, None) => run_calls rest c1 log1
      | failed => failed
      end
  end.

(** *** Vocabulary of the statements about the controller *)

(** The key of the archive of a destination. *)
Definition stream_key (c : S3UploadController) (name : string) : string :=
  path_join (key_prefix c) (_build_dest_name c name).

(** The destination whose archive a call asks [_get_tar] for, if any, and
    the members the call adds to it. *)
Definition call_dst (call : controller_call) : option string :=
  match call with
  | upload_directory_call _ _ dst _ _ => Some dst
  | add_file_call _ src dst _ optional =>
      if optional && negb (fs_exists E src) then None else Some dst
  | add_fileobj_call _ _ dst _ _ _ _ => Some dst
  | upload_fileobj_call _ _ _ => None
  end.

Definition call_members (call : controller_call) : list tar_call :=
  match call with
  | upload_directory_call _ src _ exclude include =>
      match fs_dir E src with
      | Some t => walk_calls exclude include src t
      | None => []
      end
  | add_file_call _ src _ path _ =>
      if fs_exists E src then [tar_add src path true] else []
  | add_fileobj_call _ fileobj _ path mode uid gid =>
      [tar_addfile (fileobj_tarinfo fileobj path mode uid gid) fileobj]
  | upload_fileobj_call _ _ _ => []
  end.

Definition uses (dst : string) (call : controller_call) : bool :=
  match call_dst call with
  | Some d => String.eqb d dst
  | None => false
  end.

Definition members_of (dst : string) (calls : list controller_call)
  : list tar_call :=
  flat_map call_members (filter (uses dst) calls).

(** What closing an uploader sends to the object store: the parts for
    the chunks left to upload, then the completion. *)
Definition close_events (u : S3TarUploader) : list cloud_call :=
  let bodies := S3Tar.spec_chunks (chunk_size u) (buffer u)
                  (tar_close_writes E (tar u)) in
  let m := S3Tar.handle (upload_id_of E) u in
  S3Tar.creation u
  ++ S3Tar.part_calls m (key u) (counter u) bodies
  ++ [complete_multipart_upload (Some m) (key u)
        (parts u ++ S3Tar.part_handles (etag_of E) (key u) (counter u) bodies)].

Definition entry_close_events (e : string * option S3TarUploader)
  : list cloud_call :=
  match snd e with
  | Some u => close_events u
  | None => []
  end.

(** Every entry of the dict holds an open uploader, on the key of its
    destination. *)
Definition streams_open (c : S3UploadController) : Prop :=
  Forall (fun e => match snd e with
                   | Some u => key u = stream_key c (fst e)
                   | None => False
                   end) (s3_list c).

End WithCollaborators.

Definition complete_key (call : cloud_call) : string :=
  match call with
  | complete_multipart_upload _ k _ => k
  | _ => ""
  end.

End Controller.
(** ** The copy of a backup ([S3BackupUploader.backup_copy]) *)

Record Tablespace := {
  ts_name : string;
  ts_oid : N;
  ts_location : string
}.

Record ConfigFile := {
  file_type : string;
  cf_path : string
}.

(** The fields of [BackupInfo] that [backup_copy] reads;
    [external_config_files] is what [get_external_config_files()]
    returns. *)
Record BackupInfo := {
  pgdata : string;
  tablespaces : list Tablespace;
  external_config_files : list ConfigFile
}.

Module BackupCopy.

(** [os.path.basename]: what follows the last separator. *)
Fixpoint basename_from (acc s : string) : string :=
  match s with
  | EmptyString => acc
  | String c s' =>
      if Ascii.eqb c "/" then basename_from "" s'
      else basename_from (acc +:+ String c "") s'
  end.

Definition basename (s : string) : string := basename_from "" s.

(** What one tablespace adds to the exclusion list of the PGDATA copy. *)
Definition tablespace_exclude (pgdata : string) (tablespace : Tablespace)
  : list string :=
  (if startswith (ts_location tablespace) pgdata
   then [drop_chars (String.length pgdata) (ts_location tablespace)]
   else [])
  ++ ["pg_tblspc/" +:+ str_of_N (ts_oid tablespace)].

Section WithCollaborators.

Variable E : collaborators.

(** One iteration of the loop over the tablespaces: the exclusion list
    of the PGDATA copy grows, and the tablespace is uploaded. *)
Definition tablespace_step (pgdata : string)
  (acc : list string * list controller_call) (tablespace : Tablespace)
  : list string * list controller_call :=
  let '(exclude, calls) := acc in
  let exclude1 :=
    if startswith (ts_location tablespace) pgdata
    then exclude ++ [drop_chars (String.length pgdata) (ts_location tablespace)]
    else exclude in
  let exclude2 := exclude1 ++ ["pg_tblspc/" +:+ str_of_N (ts_oid tablespace)] in
  (exclude2,
   calls ++ [upload_directory_call
               (ts_name tablespace) (ts_location tablespace)
               (str_of_N (ts_oid tablespace))
               (Some ("/*" :: EXCLUDE_LIST E))
               (Some ["/PG_" +:+ server_major_version E +:+ "_*"])]).

(** The loop over the external configuration files: [include] files are
    set aside, the others are added, the ident file optionally. *)
Definition config_file_calls (files : list ConfigFile) : list controller_call :=
  List.flat_map
    (fun config_file =>
       if String.eqb (file_type config_file) "include" then []
       else
         let optional := String.eqb (file_type config_file) "ident_file" in
         [add_file_call (file_type config_file) (cf_path config_file) "data"
            (basename (cf_path config_file)) optional])
    files.

(** The calls [backup_copy] makes on the controller, in order. *)
Definition backup_copy_calls (backup_info : BackupInfo) : list controller_call :=
  let '(exclude, calls) :=
    fold_left (tablespace_step (pgdata backup_info))
      (tablespaces backup_info) ([], []) in
  calls
  ++ [upload_directory_call "pgdata" (pgdata backup_info) "data"
        (Some (PGDATA_EXCLUDE_LIST E ++ EXCLUDE_LIST E ++ exclude)) None]
  ++ [add_file_call "pg_control"
        (pgdata backup_info +:+ "/global/pg_control") "data"
        "global/pg_control" false]
  ++ config_file_calls (external_config_files backup_info).

(** [backup_copy] *)
Definition backup_copy (controller : S3UploadController)
  (backup_info : BackupInfo) (log : list cloud_call)
  : S3UploadController * list cloud_call * option exn :=
  Controller.run_calls E (backup_copy_calls backup_info) controller log.

(** The exclusion list the loop over the tablespaces builds. *)
Definition tablespace_excludes (backup_info : BackupInfo) : list string :=
  fst (fold_left (tablespace_step (pgdata backup_info))
         (tablespaces backup_info) ([], [])).

Definition tablespace_call (tablespace : Tablespace) : controller_call :=
  upload_directory_call
    (ts_name tablespace) (ts_location tablespace)
    (str_of_N (ts_oid tablespace))
    (Some ("/*" :: EXCLUDE_LIST E))
    (Some ["/PG_" +:+ server_major_version E +:+ "_*"]).

Definition pgdata_call (backup_info : BackupInfo) : controller_call :=
  upload_directory_call "pgdata" (pgdata backup_info) "data"
    (Some (PGDATA_EXCLUDE_LIST E ++ EXCLUDE_LIST E
           ++ tablespace_excludes backup_info)) None.

Definition is_upload_directory (call : controller_call) : bool :=
  match call with
  | upload_directory_call _ _ _ _ _ => true
  | _ => false
  end.

End WithCollaborators.
End BackupCopy.
(** ** The cloud interface ([CloudInterface]) *)

(** The fields of the result of [urlparse] that the constructor reads. *)
Module Urllib.

Record ParseResult := {
  scheme : string;
  netloc : string;
  path : string
}.

End Urllib.

Module Cloud.

Record CloudInterface := {
  destination_url : string;
  profile_name : option string;
  encryption : option string;
  bucket_name : string;
  path : string
}.

Section WithLibraries.

(** [urlparse] of the standard library, and
    [boto3.Session(profile_name=...).resource('s3')], which fails when
    the profile cannot be used. *)
Variable urlparse : string -> Urllib.ParseResult.
Variable boto3_resource : option string -> result unit.

(** [CloudInterface.__init__] *)
Definition init (destination_url : string) (encryption : option string)
  (profile_name : option string) : result CloudInterface :=
  let parsed_url := urlparse destination_url in
  if String.eqb (Urllib.netloc parsed_url) ""
     || negb (String.eqb (Urllib.scheme parsed_url) "s3")
  then Raise (ValueError ("Invalid s3 URL address: " +:+ destination_url))
  else
    let! _ := boto3_resource profile_name in
    Ok {| destination_url := destination_url;
          profile_name := profile_name;
          encryption := encryption;
          bucket_name := Urllib.netloc parsed_url;
          path := Urllib.path parsed_url |}.

(** The check of the constructor: a bucket and the [s3] scheme. *)
Definition valid_s3_url (destination_url : string) : bool :=
  negb (String.eqb (Urllib.netloc (urlparse destination_url)) "")
  && String.eqb (Urllib.scheme (urlparse destination_url)) "s3".

End WithLibraries.

(** [test_connectivity], given what [self.s3.Bucket(...).load()] does. *)
Definition test_connectivity (bucket_load : result unit) : result bool :=
  match bucket_load with
  | Ok _ => Ok true
  | Raise exc =>
      if isinstance exc "EndpointConnectionError" then Ok false else Raise exc
  end.

(** [setup_bucket], given what [head_bucket] and the creation of the
    bucket do. *)
Definition setup_bucket (head_bucket bucket_create : result unit)
  : result unit :=
  match head_bucket with
  | Ok _ => Ok tt
  | Raise exc =>
      if isinstance exc "ClientError" then
        if String.eqb (exn_code exc) "404" then bucket_create else Raise exc
      else Raise exc
  end.

End Cloud.

(** ** The entry point ([main]) *)

(** The parsed command line, as far as [main] reads it itself. *)
Record Config := {
  config_destination_url : string;
  config_server_name : string;
  config_profile : option string;
  config_encryption : option string;
  config_test : bool
}.

(** What the collaborators of [main] do in one run of the program. *)
Record Environment := {
  urlparse : string -> Urllib.ParseResult;
  boto3_resource : option string -> result unit;
  postgres_new : result unit;
  bucket_load : result unit;
  head_bucket : result unit;
  bucket_create : result unit;
  uploader_backup : result unit
}.

Module Main.

(** How a block of statements ends: it runs to its end, [SystemExit] is
    raised, or another exception is. *)
Inductive control :=
| Returned
| SystemExit (code : Z)
| Raised (e : exn).

(** What [main] does that the claims speak of: the exception logged by
    the handler, and [postgres.close()]. *)
Inductive event :=
| logging_exception (e : exn)
| postgres_close.

(** The [try] block of [main]: whether [postgres] was assigned, and how
    the block ends. The connection string only reaches the PostgreSQL
    driver, and [S3BackupUploader.__init__] only stores its arguments. *)
Definition try_block (env : Environment) (config : Config) : bool * control :=
  match postgres_new env with
  | Raise e => (false, Raised e)
  | Ok _ =>
      match Cloud.init (urlparse env) (boto3_resource env)
              (config_destination_url config) (config_encryption config)
              (config_profile config) with
      | Raise e => (true, Raised e)
      | Ok cloud_interface =>
          if config_test config then
            match Cloud.test_connectivity (bucket_load env) with
            | Ok true => (true, SystemExit 0)
            | Ok false => (true, SystemExit 1)
            | Raise e => (true, Raised e)
            end
          else
            match Cloud.setup_bucket (head_bucket env) (bucket_create env) with
            | Raise e => (true, Raised e)
            | Ok _ =>
                match uploader_backup env with
                | Raise e => (true, Raised e)
                | Ok _ => (true, Returned)
                end
            end
      end
  end.

(** [main], after the arguments are parsed: the handler of [Exception]
    and the [finally] clause around the [try] block. *)
Definition main (env : Environment) (config : Config) : control * list event :=
  let '(postgres, ended) := try_block env config in
  let '(ended', logged) :=
    match ended with
    | Raised exc =>
        if isinstance exc "Exception"
        then (SystemExit 1, [logging_exception exc])
        else (Raised exc, [])
    | _ => (ended, [])
    end in
  (ended', logged ++ (if postgres then [postgres_close] else [])).

(** The exit status of the process: 0 when [main] returns, the code of
    [SystemExit], and 1 when an exception reaches the interpreter. *)
Definition exit_status (ended : control) : Z :=
  match ended with
  | Returned => 0
  | SystemExit code => code
  | Raised _ => 1
  end.

(** Every step of the run goes through: the connection object and the
    cloud interface are built and, with [--test], the object store
    answers, or, without it, the bucket is set up and the backup made. *)
Definition succeeds (env : Environment) (config : Config) : bool :=
  is_ok (postgres_new env)
  && is_ok (Cloud.init (urlparse env) (boto3_resource env)
              (config_destination_url config) (config_encryption config)
              (config_profile config))
  && (if config_test config then is_ok (bucket_load env)
      else is_ok (Cloud.setup_bucket (head_bucket env) (bucket_create env))
           && is_ok (uploader_backup env)).

Definition is_postgres_close (ev : event) : bool :=
  match ev with
  | postgres_close => true
  | _ => false
  end.

End Main.
(** ** The status of WAL archiving ([FileWalArchiver.get_remote_status]) *)

Module WalArchiver.

Import stdpp.base stdpp.gmap stdpp.strings.

(** The values of the status mapping: [None], strings and numbers. *)
Inductive value :=
| VNone
| VStr (s : string)
| VInt (n : Z).

(** The two probes of the PostgreSQL connection that the status reads,
    each with what it does when called: [get_setting(name)] and
    [get_archiver_stats()], which gives the row of [pg_stat_archiver] or
    [None] when the view is not there. *)
Record PostgreSQLConnection := {
  get_setting : string -> result value;
  get_archiver_stats : result (option (gmap string value))
}.

(** [except (PostgresConnectionError, psycopg2.Error)] *)
Definition caught (e : exn) : bool :=
  isinstance e "PostgresConnectionError" || isinstance e "psycopg2.Error".

(** The [try] statement: the mapping after it, or the exception that
    leaves it. The second setting is not asked for when the first
    raises. *)
Definition query_settings (postgres : PostgreSQLConnection)
  (status : gmap string value) : result (gmap string value) :=
  match get_setting postgres "archive_mode" with
  | Ok mode =>
      let status1 := <["archive_mode" := mode]> status in
      match get_setting postgres "archive_command" with
      | Ok command => Ok (<["archive_command" := command]> status1)
      | Raise e => if caught e then Ok status1 else Raise e
      end
  | Raise e => if caught e then Ok status else Raise e
  end.

(** [FileWalArchiver.get_remote_status]; [result.update(stats)] lets the
    statistics win over the keys already there. *)
Definition get_remote_status (postgres : PostgreSQLConnection)
  : result (gmap string value) :=
  let status0 : gmap string value :=
    <["archive_mode" := VNone]> (<["archive_command" := VNone]> ∅) in
  let! status := query_settings postgres status0 in
  let! pg_stat_archiver := get_archiver_stats postgres in
  match pg_stat_archiver with
  | Some stats => Ok (stats ∪ status)
  | None => Ok status
  end.

(** What is known of a setting: its value when the probe returned one,
    [None] when it raised. *)
Definition known (probe : result value) : value :=
  match probe with
  | Ok v => v
  | Raise _ => VNone
  end.

(** The statistics a run of [get_archiver_stats] contributes. *)
Definition statistics (probe : result (option (gmap string value)))
  : gmap string value :=
  match probe with
  | Ok (Some stats) => stats
  | _ => ∅
  end.

(** A connection that cannot be established, on a server without the
    [pg_stat_archiver] view. *)
Definition unreachable : PostgreSQLConnection :=
  {| get_setting := fun _ =>
       Raise {| exn_mro := ["PostgresConnectionError"; "Exception";
                            "BaseException"];
                exn_msg := "could not connect to server";
                exn_code := "" |};
     get_archiver_stats := Ok None |}.

(** A server that is down: every probe raises the error of the
    connection. *)
Definition connection_error : exn :=
  {| exn_mro := ["PostgresConnectionError"; "Exception"; "BaseException"];
     exn_msg := "could not connect to server";
     exn_code := "" |}.

Definition server_down : PostgreSQLConnection :=
  {| get_setting := fun _ => Raise connection_error;
     get_archiver_stats := Raise connection_error |}.

End WalArchiver.
(** ** The compatibility of the WAL receiver ([StreamingWalArchiver]) *)

Module StreamingWalArchiver.

(** A version [major.minor.patch]; a version given with two numbers has
    patch 0. *)
Record version := {
  major : nat;
  minor : nat;
  patch : nat
}.

Definition below_9_3 (v : version) : bool :=
  Nat.ltb (major v) 9 || (Nat.eqb (major v) 9 && Nat.ltb (minor v) 3).

Definition same_major_minor (a b : version) : bool :=
  Nat.eqb (major a) (major b) && Nat.eqb (minor a) (minor b).

(** [a]'s major.minor is at least [b]'s. *)
Definition major_minor_geb (a b : version) : bool :=
  Nat.ltb (major b) (major a)
  || (Nat.eqb (major a) (major b) && Nat.leb (minor b) (minor a)).

(** Modelled from the spec: the code of [StreamingWalArchiver] is not in
    the sources at hand, its tests are. "If either the receiver or
    server major.minor is below 9.3, compatible only on exact major.minor
    match; otherwise compatible iff receiver major.minor >= server
    major.minor", the patch being ignored. *)
Definition is_compatible (receiver server : version) : bool :=
  if below_9_3 receiver || below_9_3 server
  then same_major_minor receiver server
  else major_minor_geb receiver server.

(** Modelled from the spec: the field [pg_receivexlog_compatible] of the
    status of [StreamingWalArchiver], whose code is not in the sources at
    hand. It is [None] when the version of the receiver is not known,
    and "if the server rejects the replication connection (version probe
    fails), compatibility is unknown ([None]), not false". *)
Definition pg_receivexlog_compatible
  (receiver_version server_txt_version : option version) : option bool :=
  match receiver_version, server_txt_version with
  | Some receiver, Some server => Some (is_compatible receiver server)
  | _, _ => None
  end.

Definition with_patch (v : version) (p : nat) : version :=
  {| major := major v; minor := minor v; patch := p |}.

(** [major.minor] below 9.3, and the order on [major.minor]. *)
Definition lt_9_3 (v : version) : Prop :=
  (major v < 9 \/ (major v = 9 /\ minor v < 3))%nat.

Definition major_minor_le (a b : version) : Prop :=
  (major a < major b \/ (major a = major b /\ minor a <= minor b))%nat.

Definition v (a b c : nat) : version :=
  {| major := a; minor := b; patch := c |}.

End StreamingWalArchiver.

(** ** The WAL catalog ([xlog.db]) *)

Module Xlogdb.

(** An entry of the catalog; sizes and modification times are whole
    numbers here. *)
Record WalFileInfo := {
  name : string;
  size : N;
  time : N;
  compression : option string
}.

Definition tab : ascii := "009"%char.
Definition newline : ascii := "010"%char.

(** Modelled from the spec: [WalFileInfo.to_xlogdb_line] is not in the
    sources at hand, one of its tests is. "WAL catalog line format:
    [name\tsize\tmtime\tcompression\n]; compression is the literal
    absent-value token when null"; the token is [None]. *)
Definition to_xlogdb_line (w : WalFileInfo) : string :=
  name w +:+ String tab (str_of_N (size w)) +:+ String tab (str_of_N (time w))
  +:+ String tab (match compression w with
                  | Some c => c
                  | None => "None"
                  end)
  +:+ String newline "".

(** [s.split(sep)] for a one-character separator. *)
Fixpoint split_on (sep : ascii) (s : string) : list string :=
  match s with
  | EmptyString => [""]
  | String c s' =>
      if Ascii.eqb c sep then "" :: split_on sep s'
      else match split_on sep s' with
           | field :: fields => String c field :: fields
           | [] => [String c ""]
           end
  end.

(** [int(s)] for the decimal numerals that [str] writes. *)
Definition N_of_str (s : string) : option N :=
  match s with
  | EmptyString => None
  | _ => option_map N.of_uint (NilEmpty.uint_of_string s)
  end.

(** Modelled from the spec: the reading of a catalog line is not in the
    sources at hand. A line, without its final newline, holds the four
    fields of "[name\tsize\tmtime\tcompression\n]" between tabs, and the
    absent-value token reads back as a null compression. *)
Definition from_xlogdb_line (line : string) : option WalFileInfo :=
  match split_on tab line with
  | [n; s; t; c] =>
      match N_of_str s, N_of_str t with
      | Some s', Some t' =>
          Some {| name := n; size := s'; time := t';
                  compression := if String.eqb c "None" then None else Some c |}
      | _, _ => None
      end
  | _ => None
  end.

Fixpoint from_lines (lines : list string) : option (list WalFileInfo) :=
  match lines with
  | [] => Some []
  | [EmptyString] => Some []
  | line :: lines' =>
      match from_xlogdb_line line, from_lines lines' with
      | Some w, Some ws => Some (w :: ws)
      | _, _ => None
      end
  end.

(** Modelled from the spec: the catalog is an "append-only text ledger,
    one record per WAL file". Appending writes the line of the entry at
    the end; reading takes the lines in order, each ended by a newline. *)
Definition append (catalog : string) (w : WalFileInfo) : string :=
  catalog +:+ to_xlogdb_line w.

Definition read (catalog : string) : option (list WalFileInfo) :=
  from_lines (split_on newline catalog).

(** [c] does not occur in [s]. *)
Fixpoint free_of (c : ascii) (s : string) : bool :=
  match s with
  | EmptyString => true
  | String d s' => negb (Ascii.eqb d c) && free_of c s'
  end.

(** The entries a catalog can hold: no tab or newline in the name or in
    the compression, and a compression that is not the absent-value token
    itself. *)
Definition well_formed (w : WalFileInfo) : bool :=
  free_of tab (name w) && free_of newline (name w)
  && match compression w with
     | Some c => free_of tab c && free_of newline c
                 && negb (String.eqb c "None")
     | None => true
     end.

(** The record of an entry: its line without the final newline. *)
Definition record (w : WalFileInfo) : string :=
  name w +:+ String tab (str_of_N (size w) +:+ String tab (str_of_N (time w)
  +:+ String tab (match compression w with
                  | Some c => c
                  | None => "None"
                  end))).

(** The entry of the test of [to_xlogdb_line], and a history file. *)
Definition test_entry : WalFileInfo :=
  {| name := "test_name"; size := 42; time := 43; compression := None |}.

Definition history_entry : WalFileInfo :=
  {| name := "00000001.history"; size := 42; time := 43;
     compression := Some "gzip" |}.

End Xlogdb.
(** ** What a log of cloud calls holds *)

Module CloudLog.

(** The bodies of the parts uploaded, in the order of the log. *)
Definition part_bodies (log : list cloud_call) : list bytes :=
  flat_map (fun call => match call with
                        | upload_part _ _ body _ => [body]
                        | _ => []
                        end) log.

(** The length of the longest of a list of writes. *)
Definition longest (ws : list bytes) : Z :=
  fold_right Z.max 0 (map (fun w => Z.of_nat (length w)) ws).

End CloudLog.

(** ** The bytes of an archive *)

Module Archive.

(** The bodies of the parts uploaded on a key, in the order of the
    log. *)
Definition bodies_of (k : string) (log : list cloud_call) : list bytes :=
  flat_map (fun call => match call with
                        | upload_part _ k' body _ =>
                            if String.eqb k' k then [body] else []
                        | _ => []
                        end) log.

Section WithCollaborators.

Variable E : collaborators.

(** The writes the tar encoder issues for the members [ms], added in
    this order to an archive that holds the members [before]. *)
Fixpoint tar_stream (before ms : list tar_call) : list bytes :=
  match ms with
  | [] => []
  | m :: rest => tar_writes E before m ++ tar_stream (before ++ [m]) rest
  end.

(** The tar archive of the members [ms]: what the encoder writes for
    them, then what it writes when it is closed. *)
Definition archive_bytes (ms : list tar_call) : bytes :=
  concat (tar_stream [] ms) ++ concat (tar_close_writes E ms).

(** The destinations the calls name hold no leading separator. *)
Definition relative_destinations (calls : list controller_call) : Prop :=
  Forall (fun call => match Controller.call_dst E call with
                      | Some dst => startswith dst "/" = false
                      | None => True
                      end) calls.

(** Every part in the log is accounted for: the parts uploaded on the
    key of an open archive, followed by the buffer of its uploader, are
    what the encoder wrote for its members, and no part was uploaded on
    the key of a destination that has no archive yet. *)
Definition accounted (c : S3UploadController) (log : list cloud_call) : Prop :=
  (forall dst u,
     Controller.dict_get dst (s3_list c) = Some (Some u) ->
     startswith dst "/" = false
     /\ concat (bodies_of (key u) log) ++ buffer u
        = concat (tar_stream [] (tar u)))
  /\ (forall dst,
        startswith dst "/" = false ->
        Controller.dict_get dst (s3_list c) = None ->
        bodies_of (Controller.stream_key c dst) log = []).

End WithCollaborators.
End Archive.

(** ** The entries of a directory tree *)

Module Tree.

Fixpoint count_dirs (t : tree) : nat :=
  match t with
  | Dir subdirs _ => S (list_sum (map (fun p => count_dirs (snd p)) subdirs))
  end.

Fixpoint count_files (t : tree) : nat :=
  match t with
  | Dir subdirs files =>
      length files + list_sum (map (fun p => count_files (snd p)) subdirs)
  end.

(** The members of the archive of a whole tree found at [src]: for the
    directory at [rel] below [src], the directory itself, not
    recursively, then each of its files, then the same for each of its
    sub-directories, in their order. *)
Fixpoint tree_members (src : string) (rel : list string) (t : tree)
  : list tar_call :=
  match t with
  | Dir subdirs files =>
      tar_add (Controller.walk_root src rel) (Controller.relpath rel) false
      :: map (fun item =>
                tar_add (path_join (Controller.walk_root src rel) item)
                  (path_join (Controller.relpath rel) item) true)
           files
      ++ flat_map (fun p => tree_members src (rel ++ [fst p]) (snd p)) subdirs
  end.

End Tree.

(** ** Paths *)

Module Paths.


End Paths.

(** ** Runs of [main] and of the status of WAL archiving *)

Module Outcomes.

(** The environment [env] where the bucket and the backup behave
    otherwise. *)
Definition with_upload (env : Environment)
  (head create backup : result unit) : Environment :=
  {| urlparse := urlparse env;
     boto3_resource := boto3_resource env;
     postgres_new := postgres_new env;
     bucket_load := bucket_load env;
     head_bucket := head;
     bucket_create := create;
     uploader_backup := backup |}.

(** The environment [env] where the connectivity test behaves
    otherwise. *)
Definition with_load (env : Environment) (load : result unit) : Environment :=
  {| urlparse := urlparse env;
     boto3_resource := boto3_resource env;
     postgres_new := postgres_new env;
     bucket_load := load;
     head_bucket := head_bucket env;
     bucket_create := bucket_create env;
     uploader_backup := uploader_backup env |}.

(** The [try] statement of [get_remote_status] is left without an
    exception: each probe of a setting that is reached returns or
    raises an exception that is caught. *)
Definition settings_pass (postgres : WalArchiver.PostgreSQLConnection) : bool :=
  match WalArchiver.get_setting postgres "archive_mode" with
  | Raise e => WalArchiver.caught e
  | Ok _ =>
      match WalArchiver.get_setting postgres "archive_command" with
      | Raise e => WalArchiver.caught e
      | Ok _ => true
      end
  end.

End Outcomes.

(** ** The command line of [barman-cloud-backup] *)

Module Logging.

(** The levels of the [logging] package. *)
Definition DEBUG : Z := 10.
Definition WARNING : Z := 30.
Definition CRITICAL : Z := 50.

(** [configure_logging]: the level given to [logging.basicConfig], from
    the counts of [-v] and of [-q]. *)
Definition configure_logging (verbose quiet : nat) : Z :=
  let verbosity := Z.of_nat verbose - Z.of_nat quiet in
  Z.max (WARNING - verbosity * 10) DEBUG.

End Logging.

Module Conninfo.

(** [value.replace(old, new)] for a one-character [old]. *)
Fixpoint replace (old : ascii) (new : string) (value : string) : string :=
  match value with
  | EmptyString => EmptyString
  | String c rest =>
      if Ascii.eqb c old then new +:+ replace old new rest
      else String c (replace old new rest)
  end.


Section WithPattern.

(** The characters that the pattern [[\s]] matches. *)
Variable whitespace : ascii -> bool.



End WithPattern.
End Conninfo.

(** ** The command line of [barman] ([cli.py]) *)

Module Cli.

Import stdpp.base stdpp.gmap stdpp.strings.

(** [rule.split(':', 1)] when it gives two fields: what precedes the
    first separator and what follows it; [None] when it gives one. *)
Fixpoint split_first (sep : ascii) (rule : string) : option (string * string) :=
  match rule with
  | EmptyString => None
  | String c rest =>
      if Ascii.eqb c sep then Some (EmptyString, rest)
      else match split_first sep rest with
           | Some (before, after) => Some (String c before, after)
           | None => None
           end
  end.

(** Whether a rule has the two fields of a name and a location. *)
Definition has_two_fields (rule : string) : bool :=
  match split_first ":" rule with
  | Some _ => true
  | None => false
  end.

(** The loop of [recover] over the relocation rules: the mapping it
    builds and the lines it yields. [tablespaces.update([fields])]
    raises when there is one field only, and the handler yields a
    line. *)
Fixpoint relocation_rules (rules : list string) (tablespaces : gmap string string)
  : gmap string string * list string :=
  match rules with
  | [] => (tablespaces, [])
  | rule :: rest =>
      match split_first ":" rule with
      | Some (name, location) =>
          relocation_rules rest (<[name := location]> tablespaces)
      | None =>
          let '(tablespaces', lines) := relocation_rules rest tablespaces in
          (tablespaces',
           ("Invalid tablespace relocation rule " +:+ rule) :: lines)
      end
  end.

(** [recover]: the lines it yields, given the server that [get_server]
    finds, if any, with the lines its [recover] method yields for a
    mapping of tablespaces, and the rules of [--tablespace]. *)
Definition recover (server : option (gmap string string -> list string))
  (server_name : string) (tablespace : list string) : list string :=
  match server with
  | None => ["Unknown server '" +:+ server_name +:+ "'"]
  | Some server_recover =>
      let '(tablespaces, lines) := relocation_rules tablespace ∅ in
      lines ++ server_recover tablespaces
  end.

End Cli.
(** ** A sample installation

    Concrete collaborators, used to run the embedding on examples. The
    filter takes rsync-like rules: a leading separator anchors a rule at
    the top of the tree, and a rule without one also matches below any
    directory; a trailing separator restricts a rule to directories; [*]
    matches within a path component, [**] across components, and [?] one
    character. An include rule that matches accepts the path, then an
    exclude rule that matches rejects it, and a path no rule matches is
    accepted. *)

Module Sample.

Fixpoint wildcard_match (pattern path : string) {struct pattern} : bool :=
  match pattern with
  | EmptyString =>
      match path with
      | EmptyString => true
      | _ => false
      end
  | String "*" (String "*" pattern') =>
      (fix anything (s : string) : bool :=
         wildcard_match pattern' s
         || match s with
            | String _ s' => anything s'
            | EmptyString => false
            end) path
  | String "*" pattern' =>
      (fix component (s : string) : bool :=
         wildcard_match pattern' s
         || match s with
            | String c s' => negb (Ascii.eqb c "/") && component s'
            | EmptyString => false
            end) path
  | String "?" pattern' =>
      match path with
      | String _ s' => wildcard_match pattern' s'
      | EmptyString => false
      end
  | String c pattern' =>
      match path with
      | String d s' => Ascii.eqb c d && wildcard_match pattern' s'
      | EmptyString => false
      end
  end.

(** [s[:-1]] *)
Fixpoint drop_last (s : string) : string :=
  match s with
  | EmptyString => EmptyString
  | String _ EmptyString => EmptyString
  | String c s' => String c (drop_last s')
  end.

Definition rule_matches (path : string) (is_dir : bool) (rule : string) : bool :=
  let for_dirs := ends_with_char "/" rule in
  let rule1 := if for_dirs then drop_last rule else rule in
  let anchored := startswith rule1 "/" in
  let rule2 := if anchored then drop_chars 1 rule1 else rule1 in
  (negb for_dirs || is_dir)
  && (wildcard_match rule2 path
      || (negb anchored && wildcard_match ("**/" +:+ rule2) path)).

Definition matches (rules : option (list string)) (path : string)
  (is_dir : bool) : bool :=
  match rules with
  | Some rs => existsb (rule_matches path is_dir) rs
  | None => false
  end.

Definition rsync_like_path_allowed (exclude include : option (list string))
  (path : string) (is_dir : bool) : bool :=
  if matches include path is_dir then true
  else negb (matches exclude path is_dir).

(** A tablespace directory, inside the data directory below. *)
Definition tbs1_tree : tree :=
  Dir [("PG_9.6_201608131", Dir [] ["16385"])] [].

Definition pgdata_tree : tree :=
  Dir [("global", Dir [] ["pg_control"]);
       ("tbs1", tbs1_tree)]
      ["PG_VERSION"].

(** A source tree with a directory [a] holding a file and a
    sub-directory. *)
Definition src_tree : tree :=
  Dir [("a", Dir [("sub", Dir [] ["f"])] ["g"])] ["top"].

Definition world : collaborators :=
  {| upload_id_of := fun key => "upload-of-" +:+ key;
     etag_of := fun _ _ _ => "etag";
     tar_writes := fun _ _ => [[Byte.x00; Byte.x00]];
     tar_close_writes := fun _ => [[Byte.x00]];
     path_allowed := rsync_like_path_allowed;
     fs_dir := fun path =>
       if String.eqb path "/pg/data" then Some pgdata_tree
       else if String.eqb path "/pg/data/tbs1" then Some tbs1_tree
       else if String.eqb path "/srv/src" then Some src_tree
       else None;
     fs_exists := fun path =>
       existsb (String.eqb path)
         ["/pg/data/global/pg_control"; "/etc/postgresql.conf";
          "/etc/pg_hba.conf"];
     EXCLUDE_LIST := ["/pg_notify/*"; "/pg_stat_tmp/*"; "/postmaster.pid"];
     PGDATA_EXCLUDE_LIST := ["/pg_xlog/*"; "/pg_log/*"; "/global/pg_control"];
     server_major_version := "9.6" |}.

Definition backup_info : BackupInfo :=
  {| pgdata := "/pg/data";
     tablespaces :=
       [{| ts_name := "tbs1"; ts_oid := 16387;
           ts_location := "/pg/data/tbs1" |}];
     external_config_files :=
       [{| file_type := "config_file"; cf_path := "/etc/postgresql.conf" |};
        {| file_type := "hba_file"; cf_path := "/etc/pg_hba.conf" |};
        {| file_type := "ident_file"; cf_path := "/etc/pg_ident.conf" |};
        {| file_type := "include"; cf_path := "/etc/extra.conf" |}] |}.

(** A run of the controller: the data directory, a file and an in-memory
    file go to [data], the tablespace to [16387]; an absent optional file
    is skipped. *)
Definition calls : list controller_call :=
  [upload_directory_call "pgdata" "/pg/data" "data" (Some ["/tbs1"]) None;
   upload_directory_call "tbs1" "/pg/data/tbs1" "16387" None None;
   add_file_call "config_file" "/etc/postgresql.conf" "data"
     "postgresql.conf" false;
   add_file_call "ident_file" "/etc/pg_ident.conf" "data"
     "pg_ident.conf" true;
   add_fileobj_call "backup_label" [Byte.x41; Byte.x42] "data"
     "backup_label" None (Some 26) (Some 26)].

Definition after_calls
  : S3UploadController * list cloud_call * option exn :=
  Controller.run_calls world calls (Controller.init "/main/base/1" None) [].

(** A parser for URLs of the form [scheme://netloc/path], standing for
    [urlparse] on the examples: the scheme is what precedes the first
    colon, the network location what follows [//] up to the next
    separator, and the path the rest. *)
Fixpoint split_scheme (acc url : string) : option (string * string) :=
  match url with
  | EmptyString => None
  | String c rest =>
      if Ascii.eqb c ":" then Some (acc, rest)
      else split_scheme (acc +:+ String c "") rest
  end.

Fixpoint split_netloc (acc rest : string) : string * string :=
  match rest with
  | EmptyString => (acc, "")
  | String c rest' =>
      if Ascii.eqb c "/" then (acc, rest)
      else split_netloc (acc +:+ String c "") rest'
  end.

Definition simple_urlparse (url : string) : Urllib.ParseResult :=
  match split_scheme "" url with
  | Some (sch, rest) =>
      if startswith rest "//" then
        let '(loc, p) := split_netloc "" (drop_chars 2 rest) in
        {| Urllib.scheme := sch; Urllib.netloc := loc; Urllib.path := p |}
      else {| Urllib.scheme := sch; Urllib.netloc := ""; Urllib.path := rest |}
  | None => {| Urllib.scheme := ""; Urllib.netloc := ""; Urllib.path := url |}
  end.

(** A run of the program in which every collaborator answers. *)
Definition environment : Environment :=
  {| urlparse := simple_urlparse;
     boto3_resource := fun _ => Ok tt;
     postgres_new := Ok tt;
     bucket_load := Ok tt;
     head_bucket := Ok tt;
     bucket_create := Ok tt;
     uploader_backup := Ok tt |}.

End Sample.
(** * Properties *)

(** ** The multipart protocol of [S3TarUploader] *)

Module S3TarFacts.
Section UploaderFacts.

Variable upload_id_of : string -> string.
Variable etag_of : string -> Z -> bytes -> string.

Local Abbreviation flush := (S3Tar.flush upload_id_of etag_of).
Local Abbreviation write := (S3Tar.write upload_id_of etag_of).
Local Abbreviation write_all := (S3Tar.write_all upload_id_of etag_of).
Local Abbreviation close := (S3Tar.close upload_id_of etag_of).
Local Abbreviation handle := (S3Tar.handle upload_id_of).
Local Abbreviation part_handles := (S3Tar.part_handles etag_of).

Lemma flush_effect (u : S3TarUploader) (log : list cloud_call) :
  flush u log =
  ({| key := key u; mpu := Some (handle u); chunk_size := chunk_size u;
      buffer := []; counter := counter u + 1;
      parts := parts u ++ [{| PartNumber := counter u;
                              ETag := etag_of (key u) (counter u) (buffer u) |}];
      tar := tar u |},
   log ++ S3Tar.creation u
       ++ [upload_part (Some (handle u)) (key u) (buffer u) (counter u)]).
Proof.
  unfold S3Tar.flush, S3Tar.handle, S3Tar.creation.
  destruct (mpu u); simpl; [reflexivity|].
  now rewrite <- app_assoc.
Qed.

Lemma write_effect (u : S3TarUploader) (log : list cloud_call) (buf : bytes) :
  let full := chunk_size u <? Z.of_nat (length (buffer u)) in
  write u log buf =
  ({| key := key u;
      mpu := if full then Some (handle u) else mpu u;
      chunk_size := chunk_size u;
      buffer := if full then buf else buffer u ++ buf;
      counter := if full then counter u + 1 else counter u;
      parts := if full
               then parts u ++ [{| PartNumber := counter u;
                                   ETag := etag_of (key u) (counter u) (buffer u) |}]
               else parts u;
      tar := tar u |},
   log ++ (if full
           then S3Tar.creation u
                ++ [upload_part (Some (handle u)) (key u) (buffer u) (counter u)]
           else [])).
Proof.
  unfold S3Tar.write. rewrite flush_effect.
  destruct (chunk_size u <? Z.of_nat (length (buffer u))); simpl.
  - reflexivity.
  - now rewrite app_nil_r.
Qed.

Lemma write_all_preserves (ws : list bytes) :
  forall st : S3TarUploader * list cloud_call,
  key (fst (write_all ws st)) = key (fst st)
  /\ tar (fst (write_all ws st)) = tar (fst st)
  /\ exists events, snd (write_all ws st) = snd st ++ events
                    /\ List.filter S3Tar.is_complete events = [].
Proof.
  unfold S3Tar.write_all.
  induction ws as [|w ws IH]; intros [u log]; simpl.
  - repeat split. exists []. now rewrite app_nil_r.
  - destruct (IH (write u log w)) as (Hk & Ht & ev & Hlog & Hev).
    rewrite Hk, Ht, Hlog, write_effect. cbn [fst snd key tar].
    repeat split.
    eexists. rewrite <- app_assoc. split; [reflexivity|].
    rewrite List.filter_app, Hev, app_nil_r.
    destruct (chunk_size u <? Z.of_nat (length (buffer u))); [|reflexivity].
    unfold S3Tar.creation. now destruct (mpu u).
Qed.

Lemma close_cons (w : bytes) (ws : list bytes) (u : S3TarUploader)
  (log : list cloud_call) :
  close (w :: ws) u log = close ws (fst (write u log w)) (snd (write u log w)).
Proof.
  unfold S3Tar.close, S3Tar.write_all. simpl.
  now destruct (write u log w).
Qed.

Lemma close_after_writes (ws trailer : list bytes)
  (st : S3TarUploader * list cloud_call) :
  close trailer (fst (write_all ws st)) (snd (write_all ws st))
  = close (ws ++ trailer) (fst st) (snd st).
Proof.
  unfold S3Tar.close, S3Tar.write_all.
  rewrite fold_left_app.
  destruct st as [u log]. simpl.
  now destruct (fold_left _ ws (u, log)).
Qed.

Lemma part_handles_length (k : string) (bodies : list bytes) :
  forall c, length (part_handles k c bodies) = length bodies.
Proof. induction bodies; intros; simpl; [|rewrite IHbodies]; reflexivity. Qed.

Lemma part_calls_no_complete (m k : string) (bodies : list bytes) :
  forall c, List.filter S3Tar.is_complete (S3Tar.part_calls m k c bodies) = [].
Proof. induction bodies; intros; simpl; auto. Qed.

Lemma part_numbers (k : string) (bodies : list bytes) :
  forall c, map PartNumber (part_handles k c bodies)
            = S3Tar.Zseq c (length bodies).
Proof. induction bodies; intros; simpl; [|rewrite IHbodies]; reflexivity. Qed.

Lemma Zseq_lower (n : nat) : forall c x, In x (S3Tar.Zseq c n) -> c <= x.
Proof.
  induction n; simpl; intros c x H; [contradiction|].
  destruct H as [<-|H]; [lia|]. apply IHn in H. lia.
Qed.

Lemma Zseq_sorted (n : nat) : forall c, StronglySorted Z.lt (S3Tar.Zseq c n).
Proof.
  induction n; intros c; simpl; constructor; [apply IHn|].
  apply List.Forall_forall. intros x H. apply Zseq_lower in H. lia.
Qed.

(** The whole life of an uploader, from any state: the parts uploaded are
    the chunks of the specification, numbered from the running counter. *)
Lemma close_chunks (ws : list bytes) :
  forall (u : S3TarUploader) (log : list cloud_call),
  let bodies := S3Tar.spec_chunks (chunk_size u) (buffer u) ws in
  let ps := parts u ++ part_handles (key u) (counter u) bodies in
  close ws u log =
  ({| key := key u; mpu := Some (handle u); chunk_size := chunk_size u;
      buffer := []; counter := counter u + Z.of_nat (length bodies);
      parts := ps; tar := tar u |},
   log ++ S3Tar.creation u
       ++ S3Tar.part_calls (handle u) (key u) (counter u) bodies
       ++ [complete_multipart_upload (Some (handle u)) (key u) ps]).
Proof.
  induction ws as [|w ws IH]; intros u log.
  - cbv zeta. unfold S3Tar.close, S3Tar.write_all. cbn [fold_left].
    rewrite flush_effect. simpl.
    rewrite <- !app_assoc. simpl. reflexivity.
  - cbv zeta. rewrite close_cons, write_effect. cbv zeta.
    cbn [fst snd]. rewrite IH. cbn [key mpu chunk_size buffer counter parts tar].
    simpl S3Tar.spec_chunks.
    destruct (chunk_size u <? Z.of_nat (length (buffer u))).
    + unfold S3Tar.handle, S3Tar.creation. cbn [mpu key].
      simpl. rewrite <- !app_assoc. simpl.
      f_equal. f_equal. lia.
    + unfold S3Tar.handle, S3Tar.creation. cbn [mpu key].
      rewrite app_nil_r. reflexivity.
Qed.

(** C1. Writes to one [S3TarUploader] are flushed as numbered multipart
    parts: the default chunk size is [10 << 21 = 20971520]; the counter
    starts at 1; a write flushes exactly when it finds more than
    [chunk_size] bytes in the buffer, and a flush uploads the buffer as the
    one part numbered by the counter, which it increments by 1; [close]
    flushes the remainder as the final part and completes the upload once,
    with the parts in ascending part-number order. *)
Theorem C1_multipart_parts_in_order
  (k : string) (cs : Z) (ws trailer : list bytes) :
  let st := write_all ws (S3Tar.init k cs, []) in
  let bodies := S3Tar.spec_chunks cs [] (ws ++ trailer) in
  let m := upload_id_of k in
  let handles := part_handles k 1 bodies in
  let final := close trailer (fst st) (snd st) in
  (DEFAULT_CHUNK_SIZE = 20971520 /\ counter (S3Tar.init k cs) = 1)
  /\ (forall u log,
        snd (flush u log)
        = log ++ S3Tar.creation u
              ++ [upload_part (Some (handle u)) (key u) (buffer u) (counter u)]
        /\ counter (fst (flush u log)) = counter u + 1
        /\ parts (fst (flush u log))
           = parts u ++ [{| PartNumber := counter u;
                            ETag := etag_of (key u) (counter u) (buffer u) |}]
        /\ buffer (fst (flush u log)) = [])
  /\ (forall u log buf,
        let full := chunk_size u <? Z.of_nat (length (buffer u)) in
        snd (write u log buf)
        = log ++ (if full
                  then S3Tar.creation u
                       ++ [upload_part (Some (handle u)) (key u) (buffer u)
                             (counter u)]
                  else [])
        /\ counter (fst (write u log buf))
           = (if full then counter u + 1 else counter u)
        /\ buffer (fst (write u log buf))
           = (if full then buf else buffer u ++ buf))
  /\ snd final
     = [create_multipart_upload k]
         ++ S3Tar.part_calls m k 1 bodies
         ++ [complete_multipart_upload (Some m) k handles]
  /\ parts (fst final) = handles
  /\ counter (fst final) = 1 + Z.of_nat (length handles)
  /\ buffer (fst final) = []
  /\ map PartNumber handles = S3Tar.Zseq 1 (length bodies)
  /\ StronglySorted Z.lt (map PartNumber handles)
  /\ List.filter S3Tar.is_complete (snd final)
     = [complete_multipart_upload (Some m) k handles].
Proof.
  cbv zeta.
  rewrite close_after_writes. cbn [fst snd].
  rewrite close_chunks.
  cbn [fst snd S3Tar.init key mpu chunk_size buffer counter parts].
  unfold S3Tar.handle, S3Tar.creation. cbn [S3Tar.init key mpu app].
  split; [split; reflexivity|].
  split; [intros u log; rewrite flush_effect; repeat split|].
  split; [intros u log buf; rewrite write_effect; repeat split|].
  split; [reflexivity|].
  split; [reflexivity|].
  split; [now rewrite part_handles_length|].
  split; [reflexivity|].
  split; [apply part_numbers|].
  split; [rewrite part_numbers; apply Zseq_sorted|].
  cbn [List.filter S3Tar.is_complete]. rewrite List.filter_app.
  now rewrite part_calls_no_complete.
Qed.

End UploaderFacts.

(** A run with a chunk size of 3 bytes: the third write finds 4 bytes in
    the buffer and flushes them as part 1; closing flushes the rest as
    part 2 and completes the upload with both parts. *)
Example three_writes_two_parts :
  let upload_id_of := fun k : string => "id" in
  let etag_of := fun (k : string) (n : Z) (b : bytes) => "etag" in
  let a := Byte.x61 in
  let st := S3Tar.write_all upload_id_of etag_of [[a; a]; [a; a]; [a]]
              (S3Tar.init "k" 3, []) in
  snd (S3Tar.close upload_id_of etag_of [] (fst st) (snd st))
  = [create_multipart_upload "k";
     upload_part (Some "id") "k" [a; a; a; a] 1;
     upload_part (Some "id") "k" [a] 2;
     complete_multipart_upload (Some "id") "k"
       [{| PartNumber := 1; ETag := "etag" |};
        {| PartNumber := 2; ETag := "etag" |}]].
Proof. reflexivity. Qed.

End S3TarFacts.

(** ** The upload controller *)

Module ControllerFacts.

Import Controller.

Lemma dict_get_set_eq {V : Type} (k : string) (v : V) (d : list (string * V)) :
  dict_get k (dict_set k v d) = Some v.
Proof.
  induction d as [|[k' v'] d IH]; simpl.
  - now rewrite String.eqb_refl.
  - destruct (String.eqb k k') eqn:Hk; simpl; rewrite Hk; auto.
Qed.

Lemma dict_get_set_ne {V : Type} (k k' : string) (v : V) (d : list (string * V)) :
  k <> k' -> dict_get k' (dict_set k v d) = dict_get k' d.
Proof.
  intros Hne. induction d as [|[k0 v0] d IH]; simpl.
  - apply String.eqb_neq in Hne. rewrite String.eqb_sym in Hne. now rewrite Hne.
  - destruct (String.eqb k k0) eqn:Hk; simpl.
    + apply String.eqb_eq in Hk. subst k0.
      apply String.eqb_neq in Hne. rewrite String.eqb_sym in Hne.
      now rewrite Hne.
    + now rewrite IH.
Qed.

Lemma dict_get_None {V : Type} (k : string) (d : list (string * V)) :
  dict_get k d = None <-> ~ In k (List.map fst d).
Proof.
  induction d as [|[k' v'] d IH]; simpl.
  - tauto.
  - destruct (String.eqb k k') eqn:Hk.
    + apply String.eqb_eq in Hk. subst. split; [discriminate|tauto].
    + apply String.eqb_neq in Hk. rewrite IH. split; intros H.
      * intros [Heq|Hin]; [congruence|tauto].
      * tauto.
Qed.

Lemma dict_keys_set {V : Type} (k : string) (v : V) (d : list (string * V)) :
  List.map fst (dict_set k v d)
  = match dict_get k d with
    | Some _ => List.map fst d
    | None => List.map fst d ++ [k]
    end.
Proof.
  induction d as [|[k' v'] d IH]; simpl.
  - reflexivity.
  - destruct (String.eqb k k') eqn:Hk; simpl.
    + reflexivity.
    + rewrite IH. now destruct (dict_get k d).
Qed.

Lemma NoDup_snoc (k : string) (l : list string) :
  NoDup l -> ~ In k l -> NoDup (l ++ [k]).
Proof.
  induction 1 as [|x l Hx Hnd IH]; simpl; intros Hk.
  - constructor; [intros []|constructor].
  - constructor.
    + rewrite List.in_app_iff. simpl. intros [H|[H|[]]]; [tauto|].
      apply Hk. now left.
    + apply IH. tauto.
Qed.

Lemma dict_set_NoDup {V : Type} (k : string) (v : V) (d : list (string * V)) :
  NoDup (List.map fst d) -> NoDup (List.map fst (dict_set k v d)).
Proof.
  intros Hnd. rewrite dict_keys_set.
  destruct (dict_get k d) eqn:Hg; [assumption|].
  apply dict_get_None in Hg.
  now apply NoDup_snoc.
Qed.

Section WithCollaborators.

Variable E : collaborators.

Local Abbreviation tar_apply := (Controller.tar_apply E).
Local Abbreviation on_tar := (Controller.on_tar E).
Local Abbreviation walk_calls := (Controller.walk_calls E).

Lemma tar_apply_all (calls : list tar_call) :
  forall st : S3TarUploader * list cloud_call,
  key (fst (fold_left tar_apply calls st)) = key (fst st)
  /\ tar (fst (fold_left tar_apply calls st)) = tar (fst st) ++ calls
  /\ exists events, snd (fold_left tar_apply calls st) = snd st ++ events
                    /\ List.filter S3Tar.is_complete events = [].
Proof.
  induction calls as [|call calls IH]; intros [u log]; cbn [fold_left fst snd].
  - rewrite app_nil_r. repeat split. exists []. now rewrite app_nil_r.
  - destruct (IH (tar_apply (u, log) call)) as (Hk & Ht & ev & Hlog & Hev).
    rewrite Hk, Ht, Hlog. clear IH Hk Ht Hlog.
    unfold Controller.tar_apply.
    destruct (S3TarFacts.write_all_preserves (upload_id_of E) (etag_of E)
                (tar_writes E (tar u) call) (u, log)) as (Hk & _ & ev1 & Hlog & Hev1).
    destruct (S3Tar.write_all _ _ _ (u, log)) as [u1 log1].
    cbn [fst snd key tar Controller.set_tar] in *.
    rewrite <- app_assoc. repeat split; [assumption|].
    exists (ev1 ++ ev). rewrite Hlog, <- app_assoc. split; [reflexivity|].
    now rewrite List.filter_app, Hev, Hev1.
Qed.

Lemma members_on_tar (dst : string) (calls : list tar_call)
  (c : S3UploadController) (log : list cloud_call) (d : string) :
  members (fst (on_tar dst calls c log)) d
  = if String.eqb d dst then members c dst ++ calls else members c d.
Proof.
  unfold Controller.on_tar.
  assert (Hu : tar (snd (_get_tar c dst)) = members c dst
               /\ forall d, d <> dst ->
                    dict_get d (s3_list (fst (_get_tar c dst)))
                    = dict_get d (s3_list c)).
  { unfold _get_tar, members.
    destruct (dict_get dst (s3_list c)) as [[u|]|]; simpl; split; auto;
      intros d0 Hd; apply dict_get_set_ne; congruence. }
  destruct (_get_tar c dst) as [c1 u]. cbn [fst snd] in Hu.
  destruct Hu as [Hu Hother].
  destruct (tar_apply_all calls (u, log)) as (_ & Ht & _).
  destruct (fold_left tar_apply calls (u, log)) as [u1 log1].
  cbn [fst snd] in *. unfold members. cbn [set_s3_list s3_list].
  destruct (String.eqb d dst) eqn:Hd.
  - apply String.eqb_eq in Hd. subst d.
    rewrite dict_get_set_eq, Ht, Hu. reflexivity.
  - apply String.eqb_neq in Hd.
    rewrite dict_get_set_ne by congruence. now rewrite Hother.
Qed.



(** *** One archive per destination *)

Lemma dict_get_In {V : Type} (k : string) (v : V) (d : list (string * V)) :
  dict_get k d = Some v -> In (k, v) d.
Proof.
  induction d as [|[k' v'] d IH]; simpl; [discriminate|].
  destruct (String.eqb k k') eqn:Hk.
  - apply String.eqb_eq in Hk. intros [= ->]. subst. now left.
  - auto.
Qed.

Lemma dict_set_Forall {V : Type} (P : string * V -> Prop) (k : string) (v : V)
  (d : list (string * V)) :
  Forall P d -> P (k, v) -> Forall P (dict_set k v d).
Proof.
  intros Hd Hkv. induction Hd as [|[k' v'] d Hx Hd IH]; simpl.
  - now constructor.
  - destruct (String.eqb k k') eqn:Hk.
    + apply String.eqb_eq in Hk. subst. now constructor.
    + now constructor.
Qed.

Lemma opened_on_tar (dst : string) (calls : list tar_call)
  (c : S3UploadController) (log : list cloud_call) (d : string) :
  opened (fst (on_tar dst calls c log)) d = String.eqb d dst || opened c d.
Proof.
  unfold Controller.on_tar.
  assert (Hother : forall d, d <> dst ->
            dict_get d (s3_list (fst (_get_tar c dst)))
            = dict_get d (s3_list c)).
  { unfold _get_tar.
    destruct (dict_get dst (s3_list c)) as [[u|]|]; simpl; auto;
      intros d0 Hd; apply dict_get_set_ne; congruence. }
  destruct (_get_tar c dst) as [c1 u]. cbn [fst snd] in Hother.
  destruct (fold_left tar_apply calls (u, log)) as [u1 log1].
  cbn [fst]. unfold opened. cbn [set_s3_list s3_list].
  destruct (String.eqb d dst) eqn:Hd.
  - apply String.eqb_eq in Hd. subst d. now rewrite dict_get_set_eq.
  - apply String.eqb_neq in Hd.
    rewrite dict_get_set_ne by congruence. now rewrite Hother.
Qed.

Lemma on_tar_invariant (dst : string) (calls : list tar_call)
  (c : S3UploadController) (log : list cloud_call) :
  NoDup (map fst (s3_list c)) -> streams_open c ->
  let c' := fst (on_tar dst calls c log) in
  NoDup (map fst (s3_list c')) /\ streams_open c'
  /\ key_prefix c' = key_prefix c /\ compression c' = compression c
  /\ exists events, snd (on_tar dst calls c log) = log ++ events
                    /\ filter S3Tar.is_complete events = [].
Proof.
  intros Hnd Hopen. cbv zeta. unfold Controller.on_tar.
  assert (Hget : NoDup (map fst (s3_list (fst (_get_tar c dst))))
                 /\ streams_open (fst (_get_tar c dst))
                 /\ key_prefix (fst (_get_tar c dst)) = key_prefix c
                 /\ compression (fst (_get_tar c dst)) = compression c
                 /\ key (snd (_get_tar c dst)) = stream_key c dst).
  { unfold _get_tar.
    destruct (dict_get dst (s3_list c)) as [[u|]|] eqn:Hg; cbn [fst snd].
    - repeat split; auto.
      apply dict_get_In in Hg. unfold streams_open in Hopen.
      rewrite Forall_forall in Hopen. apply (Hopen _ Hg).
    - cbn [set_s3_list s3_list key_prefix compression key S3Tar.init].
      split; [now apply dict_set_NoDup|].
      split; [|auto].
      apply dict_set_Forall; [exact Hopen|reflexivity].
    - cbn [set_s3_list s3_list key_prefix compression key S3Tar.init].
      split; [now apply dict_set_NoDup|].
      split; [|auto].
      apply dict_set_Forall; [exact Hopen|reflexivity]. }
  destruct (_get_tar c dst) as [c1 u]. cbn [fst snd] in Hget.
  destruct Hget as (Hnd1 & Hopen1 & Hp & Hc & Hk).
  destruct (tar_apply_all calls (u, log)) as (Hk1 & _ & ev & Hlog & Hev).
  destruct (fold_left tar_apply calls (u, log)) as [u1 log1].
  cbn [fst snd set_s3_list s3_list key_prefix compression] in *.
  split; [now apply dict_set_NoDup|].
  split; [|split; [assumption|split; [assumption|exists ev; auto]]].
  apply dict_set_Forall; [exact Hopen1|].
  cbn [fst snd]. rewrite Hk1, Hk. unfold stream_key, _build_dest_name.
  cbn [key_prefix compression set_s3_list]. now rewrite Hp, Hc.
Qed.

(** What a call does, in terms of [on_tar]. *)
Lemma run_call_state (call : controller_call)
  (c : S3UploadController) (log : list cloud_call) :
  fst (fst (run_call E call c log))
  = match call_dst E call with
    | Some dst => fst (on_tar dst (call_members E call) c log)
    | None => c
    end.
Proof.
  destruct call; cbn [run_call call_dst call_members fst]; try reflexivity.
  unfold add_file.
  destruct (optional && negb (fs_exists E src)); [reflexivity|].
  now destruct (fs_exists E src).
Qed.

Lemma run_call_log (call : controller_call)
  (c : S3UploadController) (log : list cloud_call) :
  exists events, snd (fst (run_call E call c log)) = log ++ events
                 /\ filter S3Tar.is_complete events = [].
Proof.
  assert (Hon : forall dst calls,
            exists events, snd (on_tar dst calls c log) = log ++ events
                           /\ filter S3Tar.is_complete events = []).
  { intros dst calls. unfold Controller.on_tar.
    destruct (_get_tar c dst) as [c1 u].
    destruct (tar_apply_all calls (u, log)) as (_ & _ & ev & Hlog & Hev).
    destruct (fold_left tar_apply calls (u, log)) as [u1 log1].
    exists ev. auto. }
  destruct call; cbn [run_call fst snd]; try apply Hon.
  - unfold add_file.
    destruct (optional && negb (fs_exists E src)).
    + exists []. now rewrite app_nil_r.
    + destruct (fs_exists E src); apply Hon.
  - unfold upload_fileobj_to. cbn [snd]. eexists. split; reflexivity.
Qed.

Lemma members_of_cons (dst : string) (call : controller_call)
  (calls : list controller_call) :
  members_of E dst (call :: calls)
  = (if uses E dst call then call_members E call else [])
    ++ members_of E dst calls.
Proof.
  unfold members_of. simpl. now destruct (uses E dst call).
Qed.

Lemma run_calls_spec (calls : list controller_call) :
  forall (c : S3UploadController) (log : list cloud_call)
         (c' : S3UploadController) (log' : list cloud_call),
  NoDup (map fst (s3_list c)) -> streams_open c ->
  run_calls E calls c log = (c', log', None) ->
  NoDup (map fst (s3_list c')) /\ streams_open c'
  /\ key_prefix c' = key_prefix c /\ compression c' = compression c
  /\ (forall dst, opened c' dst = opened c dst || existsb (uses E dst) calls)
  /\ (forall dst, members c' dst = members c dst ++ members_of E dst calls)
  /\ exists events, log' = log ++ events
                    /\ filter S3Tar.is_complete events = [].
Proof.
  induction calls as [|call calls IH]; intros c log c' log' Hnd Hopen Hrun.
  - simpl in Hrun. injection Hrun as <- <-.
    repeat split; auto.
    + intros dst. now rewrite orb_false_r.
    + intros dst. unfold members_of. simpl. now rewrite app_nil_r.
    + exists []. now rewrite app_nil_r.
  - cbn [run_calls] in Hrun.
    pose proof (run_call_state call c log) as Hstate.
    destruct (run_call_log call c log) as (ev1 & Hlog1 & Hev1).
    destruct (run_call E call c log) as [[c1 log1] [e|]];
      [discriminate Hrun|].
    cbn [fst snd] in Hstate, Hlog1.
    assert (H1 : NoDup (map fst (s3_list c1)) /\ streams_open c1
                 /\ key_prefix c1 = key_prefix c
                 /\ compression c1 = compression c).
    { rewrite Hstate. destruct (call_dst E call) as [dst|]; [|auto].
      destruct (on_tar_invariant dst (call_members E call) c log Hnd Hopen)
        as (? & ? & ? & ? & _). auto. }
    destruct H1 as (Hnd1 & Hopen1 & Hp1 & Hc1).
    destruct (IH c1 log1 c' log' Hnd1 Hopen1 Hrun)
      as (Hnd' & Hopen' & Hp & Hc & Hop & Hmem & ev & Hlog & Hev).
    split; [assumption|]. split; [assumption|].
    split; [congruence|]. split; [congruence|].
    split; [|split].
    + intros dst. rewrite Hop. cbn [existsb]. rewrite orb_assoc. f_equal.
      rewrite Hstate. unfold uses.
      destruct (call_dst E call) as [d|].
      * rewrite opened_on_tar, String.eqb_sym. apply orb_comm.
      * now rewrite orb_false_r.
    + intros dst. rewrite Hmem, members_of_cons, app_assoc. f_equal.
      rewrite Hstate. unfold uses.
      destruct (call_dst E call) as [d|].
      * rewrite members_on_tar, String.eqb_sym.
        destruct (String.eqb d dst) eqn:Hd.
        -- apply String.eqb_eq in Hd. now subst.
        -- now rewrite app_nil_r.
      * now rewrite app_nil_r.
    + exists (ev1 ++ ev). rewrite Hlog, Hlog1, <- app_assoc.
      split; [reflexivity|]. now rewrite filter_app, Hev, Hev1.
Qed.

Lemma dict_get_app_notin {V : Type} (k : string) (a b : list (string * V)) :
  ~ In k (map fst a) -> dict_get k (a ++ b) = dict_get k b.
Proof.
  induction a as [|[k' v'] a IH]; simpl; intros Hk; [reflexivity|].
  destruct (String.eqb k k') eqn:Heq.
  - apply String.eqb_eq in Heq. subst. tauto.
  - apply IH. tauto.
Qed.

Lemma dict_set_app_notin {V : Type} (k : string) (v : V)
  (a b : list (string * V)) :
  ~ In k (map fst a) -> dict_set k v (a ++ b) = a ++ dict_set k v b.
Proof.
  induction a as [|[k' v'] a IH]; simpl; intros Hk; [reflexivity|].
  destruct (String.eqb k k') eqn:Heq.
  - apply String.eqb_eq in Heq. subst. tauto.
  - rewrite IH; tauto.
Qed.

Lemma close_events_spec (u : S3TarUploader) (log : list cloud_call) :
  snd (S3Tar.close (upload_id_of E) (etag_of E) (tar_close_writes E (tar u))
         u log)
  = log ++ close_events E u.
Proof. now rewrite S3TarFacts.close_chunks. Qed.

Local Abbreviation closed :=
  (map (fun e : string * option S3TarUploader => (fst e, @None S3TarUploader))).

Lemma set_s3_list_twice (c : S3UploadController)
  (x y : list (string * option S3TarUploader)) :
  set_s3_list (set_s3_list c x) y = set_s3_list c y.
Proof. reflexivity. Qed.

Lemma close_loop (c : S3UploadController)
  (rest : list (string * option S3TarUploader)) :
  forall (pre : list (string * option S3TarUploader)) (log : list cloud_call),
  NoDup (map fst (pre ++ rest)) ->
  fold_left (close_step E) (map fst rest)
    (set_s3_list c (closed pre ++ rest), log)
  = (set_s3_list c (closed pre ++ closed rest),
     log ++ flat_map (entry_close_events E) rest).
Proof.
  induction rest as [|[k s3] rest IH]; intros pre log Hnd.
  - simpl. now rewrite !app_nil_r.
  - assert (Hk : ~ In k (map fst (closed pre))).
    { rewrite map_map. cbn [fst]. rewrite map_app in Hnd.
      apply NoDup_remove_2 in Hnd. rewrite in_app_iff in Hnd. tauto. }
    cbn [map fold_left fst]. unfold close_step at 2.
    cbn [s3_list set_s3_list key_prefix compression].
    rewrite dict_get_app_notin, dict_set_app_notin by assumption.
    cbn [dict_get dict_set]. rewrite String.eqb_refl.
    replace (closed pre ++ (k, None) :: rest)
      with (closed (pre ++ [(k, s3)]) ++ rest)
      by (rewrite map_app, <- app_assoc; reflexivity).
    rewrite set_s3_list_twice.
    rewrite IH by (rewrite <- app_assoc; exact Hnd).
    rewrite map_app, <- app_assoc. cbn [map app fst flat_map].
    f_equal. rewrite app_assoc. f_equal.
    unfold entry_close_events. cbn [snd].
    destruct s3 as [u|]; [apply close_events_spec|now rewrite app_nil_r].
Qed.

Lemma close_spec (c : S3UploadController) (log : list cloud_call) :
  NoDup (map fst (s3_list c)) ->
  close E c log
  = (set_s3_list c (closed (s3_list c)),
     log ++ flat_map (entry_close_events E) (s3_list c)).
Proof.
  intros Hnd. unfold Controller.close.
  replace (c, log) with (set_s3_list c (closed [] ++ s3_list c), log)
    by (now destruct c).
  now rewrite close_loop.
Qed.

Lemma closed_no_events (d : list (string * option S3TarUploader)) :
  flat_map (entry_close_events E) (closed d) = [].
Proof. induction d as [|e d IH]; [reflexivity|exact IH]. Qed.

Lemma completions_of_close (c : S3UploadController) :
  streams_open c ->
  map complete_key
    (filter S3Tar.is_complete (flat_map (entry_close_events E) (s3_list c)))
  = map (fun e => stream_key c (fst e)) (s3_list c).
Proof.
  unfold streams_open. induction 1 as [|[k s3] d Hx Hd IH]; [reflexivity|].
  cbn [flat_map map fst]. rewrite filter_app, map_app, IH. f_equal.
  cbn [fst snd] in Hx. destruct s3 as [u|]; [|contradiction].
  unfold entry_close_events, close_events. cbn [snd].
  rewrite !filter_app, S3TarFacts.part_calls_no_complete.
  unfold S3Tar.creation. destruct (mpu u); simpl; now rewrite Hx.
Qed.

(** C10. The controller keeps one archive per destination. After any
    sequence of [upload_directory], [add_file], [add_fileobj] (and
    [upload_fileobj]) calls on a new controller that raised no exception:
    the destination names of the dict are distinct, and every entry is an
    open uploader on the key of its destination; a destination has an
    archive exactly when a call has asked [_get_tar] for it, and this one
    archive holds the members of all the calls on that destination, in
    order; nothing has been completed yet. [close] then completes one
    multipart upload per destination, in the order of the dict, and
    leaves [None] in every entry; closing again changes nothing and
    calls the object store no more. *)
Theorem C10_one_archive_per_destination
  (prefix : string) (compr : option string) (calls : list controller_call)
  (c : S3UploadController) (log : list cloud_call) :
  run_calls E calls (Controller.init prefix compr) [] = (c, log, None) ->
  NoDup (map fst (s3_list c))
  /\ streams_open c
  /\ (forall dst, opened c dst = existsb (uses E dst) calls
                  /\ members c dst = members_of E dst calls)
  /\ filter S3Tar.is_complete log = []
  /\ (let '(c1, log1) := close E c log in
      map fst (s3_list c1) = map fst (s3_list c)
      /\ Forall (fun e => snd e = None) (s3_list c1)
      /\ map complete_key (filter S3Tar.is_complete log1)
         = map (fun e => stream_key c (fst e)) (s3_list c)
      /\ close E c1 log1 = (c1, log1)).
Proof.
  intros Hrun.
  apply run_calls_spec in Hrun; [|constructor|constructor].
  destruct Hrun as (Hnd & Hopen & _ & _ & Hop & Hmem & ev & -> & Hev).
  split; [assumption|]. split; [assumption|].
  split; [intros dst; split; [apply Hop|apply Hmem]|].
  split; [assumption|].
  rewrite close_spec by assumption.
  assert (Hkeys : map fst (closed (s3_list c)) = map fst (s3_list c)).
  { rewrite map_map. reflexivity. }
  cbn [s3_list set_s3_list].
  split; [assumption|].
  split; [apply Forall_forall; intros e He; apply in_map_iff in He;
          destruct He as (e0 & <- & _); reflexivity|].
  split.
  - cbn [app]. rewrite filter_app, Hev. cbn [app].
    now apply completions_of_close.
  - rewrite close_spec by (cbn [s3_list set_s3_list]; now rewrite Hkeys).
    cbn [s3_list set_s3_list]. rewrite set_s3_list_twice.
    f_equal.
    + f_equal. rewrite map_map. reflexivity.
    + rewrite <- app_nil_r. f_equal. apply closed_no_events.
Qed.

End WithCollaborators.


(** C10 on the sample installation: two destinations, [data] used by
    three calls and [16387] by one. *)
Lemma C10_sample_run :
  NoDup (map fst (s3_list (fst (fst Sample.after_calls))))
  /\ Controller.opened (fst (fst Sample.after_calls)) "data" = true.
Proof.
  destruct (C10_one_archive_per_destination Sample.world
              "/main/base/1" None Sample.calls
              (fst (fst Sample.after_calls)) (snd (fst Sample.after_calls)))
    as (Hnd & _ & Hdst & _).
  - vm_compute. reflexivity.
  - split; [exact Hnd|]. destruct (Hdst "data") as [-> _]. reflexivity.
Defined.
End ControllerFacts.

(** ** The copy of a backup *)

Module BackupCopyFacts.

Import BackupCopy.

Lemma startswith_append (p rel : string) : startswith (p +:+ rel) p = true.
Proof.
  induction p as [|c p IH]; simpl; [reflexivity|].
  now rewrite Ascii.eqb_refl, IH.
Qed.

Lemma drop_chars_append (p rel : string) :
  drop_chars (String.length p) (p +:+ rel) = rel.
Proof. induction p as [|c p IH]; simpl; auto. Qed.

Section WithCollaborators.

Variable E : collaborators.

Local Abbreviation tablespace_step := (BackupCopy.tablespace_step E).
Local Abbreviation tablespace_call := (BackupCopy.tablespace_call E).
Local Abbreviation tablespace_excludes := (BackupCopy.tablespace_excludes E).
Local Abbreviation pgdata_call := (BackupCopy.pgdata_call E).
Local Abbreviation backup_copy_calls := (BackupCopy.backup_copy_calls E).

Lemma tablespace_loop (pg : string) (ts : list Tablespace) :
  forall (exclude : list string) (calls : list controller_call),
  fold_left (tablespace_step pg) ts (exclude, calls)
  = (exclude ++ flat_map (tablespace_exclude pg) ts,
     calls ++ map tablespace_call ts).
Proof.
  induction ts as [|t ts IH]; intros exclude calls; simpl.
  - now rewrite !app_nil_r.
  - rewrite IH. unfold tablespace_exclude at 2, BackupCopy.tablespace_call at 2.
    destruct (startswith (ts_location t) pg); simpl;
      now rewrite <- !app_assoc.
Qed.

Lemma backup_copy_calls_eq (backup_info : BackupInfo) :
  backup_copy_calls backup_info
  = map tablespace_call (tablespaces backup_info)
    ++ pgdata_call backup_info
    :: add_file_call "pg_control"
         (pgdata backup_info +:+ "/global/pg_control") "data"
         "global/pg_control" false
    :: config_file_calls (external_config_files backup_info).
Proof.
  unfold BackupCopy.backup_copy_calls, BackupCopy.pgdata_call,
    BackupCopy.tablespace_excludes.
  rewrite tablespace_loop. reflexivity.
Qed.

Lemma tablespace_excludes_eq (backup_info : BackupInfo) :
  tablespace_excludes backup_info
  = flat_map (tablespace_exclude (pgdata backup_info)) (tablespaces backup_info).
Proof.
  unfold BackupCopy.tablespace_excludes. now rewrite tablespace_loop.
Qed.

Lemma config_file_calls_not_directory (files : list ConfigFile) :
  filter is_upload_directory (config_file_calls files) = [].
Proof.
  unfold config_file_calls. induction files as [|f files IH]; simpl; auto.
  destruct (String.eqb (file_type f) "include"); simpl; auto.
Qed.

(** The calls of [backup_copy] for the tablespaces: every tablespace
    gets an upload of its own ([label] its name, [src] its location,
    [dst] its oid), in the order of the tablespaces and before the
    upload of PGDATA; these are all the directory uploads there are.
    The exclusion list of the PGDATA upload holds [pg_tblspc/<oid>] for
    every tablespace and, for every tablespace whose location is
    [pgdata] followed by a relative path, that relative path. What the
    list keeps out of the archive is another matter, settled below. *)
Theorem tablespaces_first_and_excluded (backup_info : BackupInfo) :
  let calls := backup_copy_calls backup_info in
  let n := length (tablespaces backup_info) in
  let exclude := tablespace_excludes backup_info in
  firstn n calls
  = map (fun t => upload_directory_call (ts_name t) (ts_location t)
                    (str_of_N (ts_oid t))
                    (Some ("/*" :: EXCLUDE_LIST E))
                    (Some ["/PG_" +:+ server_major_version E +:+ "_*"]))
      (tablespaces backup_info)
  /\ nth_error calls n
     = Some (upload_directory_call "pgdata" (pgdata backup_info) "data"
               (Some (PGDATA_EXCLUDE_LIST E ++ EXCLUDE_LIST E ++ exclude))
               None)
  /\ filter is_upload_directory calls
     = firstn n calls ++ [pgdata_call backup_info]
  /\ (forall t, In t (tablespaces backup_info) ->
        In ("pg_tblspc/" +:+ str_of_N (ts_oid t)) exclude)
  /\ (forall t rel, In t (tablespaces backup_info) ->
        ts_location t = pgdata backup_info +:+ rel -> In rel exclude).
Proof.
  cbv zeta. rewrite backup_copy_calls_eq, tablespace_excludes_eq.
  assert (Hn : length (tablespaces backup_info)
               = length (map tablespace_call (tablespaces backup_info)))
    by now rewrite length_map.
  split; [|split; [|split; [|split]]].
  - rewrite Hn, firstn_app, firstn_all, Nat.sub_diag. simpl.
    now rewrite app_nil_r.
  - rewrite Hn, nth_error_app2, Nat.sub_diag by lia. simpl.
    unfold BackupCopy.pgdata_call. now rewrite tablespace_excludes_eq.
  - rewrite Hn, firstn_app, firstn_all, Nat.sub_diag. simpl.
    rewrite app_nil_r, filter_app. simpl.
    rewrite config_file_calls_not_directory. f_equal.
    clear. induction (tablespaces backup_info); simpl; [|rewrite IHl]; auto.
  - intros t Ht. apply in_flat_map. exists t. split; [assumption|].
    unfold tablespace_exclude. apply in_or_app. right. now left.
  - intros t rel Ht Hloc. apply in_flat_map. exists t. split; [assumption|].
    unfold tablespace_exclude. apply in_or_app. left.
    rewrite Hloc, startswith_append, drop_chars_append. now left.
Qed.

Lemma config_file_calls_In (files : list ConfigFile) (call : controller_call) :
  In call (config_file_calls files) <->
  exists cf, In cf files
             /\ String.eqb (file_type cf) "include" = false
             /\ call = add_file_call (file_type cf) (cf_path cf) "data"
                         (basename (cf_path cf))
                         (String.eqb (file_type cf) "ident_file").
Proof.
  unfold config_file_calls. rewrite in_flat_map. split.
  - intros (cf & Hin & Hcall). exists cf.
    destruct (String.eqb (file_type cf) "include"); [contradiction|].
    destruct Hcall as [<-|[]]. auto.
  - intros (cf & Hin & Hinc & ->). exists cf. rewrite Hinc.
    split; [assumption|now left].
Qed.

(** C8. [add_file] with [optional=True] on a source that does not exist
    returns at once: the controller, its archives and the log of cloud
    calls are unchanged. Without [optional] the same call raises. Among
    the [add_file] calls of [backup_copy], every external configuration
    file that is not an [include] gets one, and a call is optional
    exactly when its label is [ident_file]: the jobs of [config_file],
    [hba_file] and [pg_control] are required. *)
Theorem C8_only_ident_file_is_optional (backup_info : BackupInfo) :
  (forall label src dst path c log,
     fs_exists E src = false ->
     Controller.add_file E label src dst path true c log = (c, log, None))
  /\ (forall label src dst path c log,
        fs_exists E src = false ->
        exists e,
          snd (Controller.add_file E label src dst path false c log) = Some e
          /\ isinstance e "OSError" = true)
  /\ (forall cf,
        In cf (external_config_files backup_info) ->
        file_type cf <> "include" ->
        In (add_file_call (file_type cf) (cf_path cf) "data"
              (basename (cf_path cf))
              (String.eqb (file_type cf) "ident_file"))
           (backup_copy_calls backup_info))
  /\ (forall label src dst path optional,
        In (add_file_call label src dst path optional)
           (backup_copy_calls backup_info) ->
        optional = String.eqb label "ident_file").
Proof.
  split; [|split; [|split]].
  - intros label src dst path c log Habsent.
    unfold Controller.add_file. now rewrite Habsent.
  - intros label src dst path c log Habsent.
    unfold Controller.add_file. rewrite Habsent. simpl.
    eexists. split; reflexivity.
  - intros cf Hin Hinc. rewrite backup_copy_calls_eq.
    apply in_or_app. right. right. right.
    apply config_file_calls_In. exists cf.
    apply String.eqb_neq in Hinc. auto.
  - intros label src dst path optional. rewrite backup_copy_calls_eq.
    rewrite in_app_iff. intros [H|[H|[H|H]]].
    + apply in_map_iff in H. destruct H as (t & Ht & _). discriminate Ht.
    + discriminate H.
    + injection H as <- <- <- <- <-. reflexivity.
    + apply config_file_calls_In in H.
      destruct H as (cf & _ & _ & Heq). injection Heq as -> -> -> -> ->.
      reflexivity.
Qed.

End WithCollaborators.

(** The sample backup: the tablespace [tbs1] lies inside the data
    directory, and [/tbs1] is excluded from the upload of PGDATA. *)
Lemma sample_excludes :
  In "pg_tblspc/16387"
    (BackupCopy.tablespace_excludes Sample.world Sample.backup_info)
  /\ In "/tbs1"
       (BackupCopy.tablespace_excludes Sample.world Sample.backup_info).
Proof.
  destruct (tablespaces_first_and_excluded Sample.world Sample.backup_info)
    as (_ & _ & _ & Hlink & Hrel).
  split.
  - apply (Hlink {| ts_name := "tbs1"; ts_oid := 16387;
                    ts_location := "/pg/data/tbs1" |}).
    simpl. now left.
  - apply (Hrel {| ts_name := "tbs1"; ts_oid := 16387;
                   ts_location := "/pg/data/tbs1" |} "/tbs1").
    + simpl. now left.
    + reflexivity.
Defined.

(** C8 on the sample installation, where the ident file is absent. *)
Lemma C8_sample_ident_file_skipped :
  Controller.add_file Sample.world "ident_file" "/etc/pg_ident.conf" "data"
    "pg_ident.conf" true (Controller.init "/main/base/1" None) []
  = (Controller.init "/main/base/1" None, [], None).
Proof.
  apply (C8_only_ident_file_is_optional Sample.world Sample.backup_info).
  reflexivity.
Defined.

(** C2. [backup_copy] on the sample backup, where the tablespace [tbs1]
    lies inside the data directory. The copy goes through, and [/tbs1]
    is in the exclusion list of the upload of PGDATA, as the comment in
    [backup_copy] has it, to protect the tablespace from being copied
    twice. That upload leaves the directory [tbs1] out and still walks
    below it: the file [PG_9.6_201608131/16385] of the tablespace goes
    into the archive of the tablespace and into the archive of the data
    directory, so it is copied twice. *)
Lemma C2_tablespace_file_copied_twice :
  snd (BackupCopy.backup_copy Sample.world (Controller.init "/main/base/1" None)
         Sample.backup_info [])
  = None
  /\ Controller.members
       (fst (fst (BackupCopy.backup_copy Sample.world
                    (Controller.init "/main/base/1" None)
                    Sample.backup_info [])))
       "16387"
     = [tar_add "/pg/data/tbs1/PG_9.6_201608131" "PG_9.6_201608131" false;
        tar_add "/pg/data/tbs1/PG_9.6_201608131/16385"
          "PG_9.6_201608131/16385" true]
  /\ Controller.members
       (fst (fst (BackupCopy.backup_copy Sample.world
                    (Controller.init "/main/base/1" None)
                    Sample.backup_info [])))
       "data"
     = [tar_add "/pg/data" "." false;
        tar_add "/pg/data/PG_VERSION" "./PG_VERSION" true;
        tar_add "/pg/data/global" "global" false;
        tar_add "/pg/data/tbs1/PG_9.6_201608131" "tbs1/PG_9.6_201608131"
          false;
        tar_add "/pg/data/tbs1/PG_9.6_201608131/16385"
          "tbs1/PG_9.6_201608131/16385" true;
        tar_add "/pg/data/global/pg_control" "global/pg_control" true;
        tar_add "/etc/postgresql.conf" "postgresql.conf" true;
        tar_add "/etc/pg_hba.conf" "pg_hba.conf" true].
Proof. vm_compute. repeat split. Qed.

End BackupCopyFacts.

(** ** The cloud interface and the entry point *)

Module CloudFacts.
Section WithLibraries.

Variable urlparse : string -> Urllib.ParseResult.
Variable boto3_resource : option string -> result unit.

Local Abbreviation init := (Cloud.init urlparse boto3_resource).
Local Abbreviation valid_s3_url := (Cloud.valid_s3_url urlparse).

(** C3 (as amended). The constructor accepts a destination URL exactly
    when its parsed scheme is [s3] and its network location is not
    empty. A URL that is not accepted makes it raise [ValueError], with
    the message [Invalid s3 URL address: <url>], before the boto3 session
    is asked for. For an accepted URL it goes on to build the session,
    and succeeds when that does; the bucket name and the path of the
    interface are then the network location and the path as parsed. *)
Theorem C3_s3_url_or_ValueError
  (destination_url : string) (encryption profile_name : option string) :
  let parsed := urlparse destination_url in
  let valid := valid_s3_url destination_url in
  (valid = true <->
   Urllib.scheme parsed = "s3" /\ Urllib.netloc parsed <> "")
  /\ (if valid then True
      else init destination_url encryption profile_name
           = Raise (ValueError ("Invalid s3 URL address: " +:+ destination_url)))
  /\ is_ok (init destination_url encryption profile_name)
     = valid && is_ok (boto3_resource profile_name)
  /\ (forall ci, init destination_url encryption profile_name = Ok ci ->
        Cloud.bucket_name ci = Urllib.netloc parsed
        /\ Cloud.path ci = Urllib.path parsed)
  /\ (forall e, init destination_url encryption profile_name = Raise e ->
        exn_class e = "ValueError" \/ boto3_resource profile_name = Raise e).
Proof.
  cbv zeta. unfold Cloud.valid_s3_url, Cloud.init.
  destruct (String.eqb_spec (Urllib.netloc (urlparse destination_url)) "")
    as [Hloc|Hloc];
    destruct (String.eqb_spec (Urllib.scheme (urlparse destination_url)) "s3")
      as [Hs|Hs]; cbn [negb andb orb].
  - (* no bucket *)
    split; [split; [discriminate|tauto]|].
    split; [reflexivity|]. split; [reflexivity|].
    split; [discriminate|]. intros e [= <-]. now left.
  - split; [split; [discriminate|tauto]|].
    split; [reflexivity|]. split; [reflexivity|].
    split; [discriminate|]. intros e [= <-]. now left.
  - (* a bucket and the s3 scheme *)
    split; [tauto|]. split; [exact I|].
    destruct (boto3_resource profile_name) as [[]|e0]; cbn [bind is_ok].
    + split; [reflexivity|]. split; [|discriminate].
      intros ci [= <-]. split; reflexivity.
    + split; [reflexivity|]. split; [discriminate|].
      intros e [= <-]. now right.
  - (* another scheme *)
    split; [split; [discriminate|tauto]|].
    split; [reflexivity|]. split; [reflexivity|].
    split; [discriminate|]. intros e [= <-]. now left.
Qed.

End WithLibraries.

(** C3 on an accepted URL: the interface built for
    [s3://backups/pg/main] has the bucket and the path of the URL. *)
Lemma C3_sample_bucket_and_path :
  Cloud.bucket_name
    {| Cloud.destination_url := "s3://backups/pg/main";
       Cloud.profile_name := None; Cloud.encryption := Some "AES256";
       Cloud.bucket_name := "backups"; Cloud.path := "/pg/main" |}
  = Urllib.netloc (Sample.simple_urlparse "s3://backups/pg/main")
  /\ Cloud.path
       {| Cloud.destination_url := "s3://backups/pg/main";
          Cloud.profile_name := None; Cloud.encryption := Some "AES256";
          Cloud.bucket_name := "backups"; Cloud.path := "/pg/main" |}
     = Urllib.path (Sample.simple_urlparse "s3://backups/pg/main").
Proof.
  apply (C3_s3_url_or_ValueError Sample.simple_urlparse (fun _ => Ok tt)
           "s3://backups/pg/main" (Some "AES256") None).
  reflexivity.
Defined.

(** C3, counterexample to the claim as stated. An [http] URL is refused
    with a [ValueError]: no [ConfigurationError] is in the hierarchy of
    the exception raised. *)
Lemma C3_counterexample_error_is_ValueError :
  Cloud.init Sample.simple_urlparse (fun _ => Ok tt) "http://backups/pg/main"
    None None
  = Raise (ValueError "Invalid s3 URL address: http://backups/pg/main")
  /\ exn_class (ValueError "Invalid s3 URL address: http://backups/pg/main")
     = "ValueError"
  /\ isinstance (ValueError "Invalid s3 URL address: http://backups/pg/main")
       "ConfigurationError" = false.
Proof. repeat split. Qed.

End CloudFacts.

Module MainFacts.

Import Main.

Lemma try_block_postgres (env : Environment) (config : Config) :
  fst (try_block env config) = is_ok (postgres_new env).
Proof.
  unfold try_block.
  destruct (postgres_new env); [|reflexivity].
  destruct (Cloud.init _ _ _ _ _); [|reflexivity].
  destruct (config_test config).
  - destruct (Cloud.test_connectivity _) as [[|]|]; reflexivity.
  - destruct (Cloud.setup_bucket _ _); [|reflexivity].
    destruct (uploader_backup env); reflexivity.
Qed.

Lemma try_block_returns (env : Environment) (config : Config) :
  match snd (try_block env config) with
  | Returned => config_test config = false /\ succeeds env config = true
  | SystemExit code =>
      config_test config = true
      /\ code = (if succeeds env config then 0 else 1)
  | Raised _ => succeeds env config = false
  end.
Proof.
  unfold try_block, succeeds, Cloud.test_connectivity.
  destruct (postgres_new env); [|reflexivity].
  destruct (Cloud.init _ _ _ _ _); [|reflexivity].
  destruct (config_test config); cbn [is_ok andb].
  - destruct (bucket_load env) as [[]|exc]; cbn [is_ok snd]; [auto|].
    destruct (isinstance exc "EndpointConnectionError"); cbn [snd]; auto.
  - destruct (Cloud.setup_bucket _ _); cbn [is_ok andb snd]; [|reflexivity].
    destruct (uploader_backup env); cbn [is_ok snd]; auto.
Qed.

(** C6. The exit status of [main] is 0 when the run succeeds and 1
    otherwise, whatever fails and however: an exception of a
    collaborator, caught and logged by the handler or not, or a failed
    connectivity test. With [--test], once the connection object and the
    cloud interface are built, the status is 0 when the object store
    answers and 1 when it does not. On every path the events of [main]
    end with exactly one [postgres.close()] when the connection object
    was created, and hold none when it was not. *)
Theorem C6_exit_status_and_release (env : Environment) (config : Config) :
  let ended := fst (main env config) in
  let events := snd (main env config) in
  exit_status ended = (if succeeds env config then 0 else 1)
  /\ (if config_test config
         && is_ok (postgres_new env)
         && is_ok (Cloud.init (urlparse env) (boto3_resource env)
                     (config_destination_url config)
                     (config_encryption config) (config_profile config))
      then exit_status ended = (if is_ok (bucket_load env) then 0 else 1)
      else True)
  /\ exists logged,
       events = logged ++ (if is_ok (postgres_new env)
                           then [postgres_close] else [])
       /\ filter is_postgres_close logged = [].
Proof.
  cbv zeta.
  assert (Hstatus : exit_status (fst (main env config))
                    = (if succeeds env config then 0 else 1)).
  { unfold main.
    pose proof (try_block_returns env config) as Hret.
    destruct (try_block env config) as [pg ended]. cbn [snd] in Hret.
    destruct ended as [|code|exc]; cbn [fst exit_status].
    - destruct Hret as [_ ->]. reflexivity.
    - now destruct Hret as [_ ->].
    - rewrite Hret. now destruct (isinstance exc "Exception"). }
  split; [exact Hstatus|]. split.
  - rewrite Hstatus. unfold succeeds.
    destruct (config_test config); [|exact I].
    destruct (postgres_new env); [|exact I].
    destruct (Cloud.init _ _ _ _ _); [|exact I].
    reflexivity.
  - unfold main. pose proof (try_block_postgres env config) as Hpg.
    destruct (try_block env config) as [pg ended]. cbn [fst] in Hpg.
    subst pg.
    destruct ended as [|code|exc]; cbn [snd].
    + exists []. auto.
    + exists []. auto.
    + destruct (isinstance exc "Exception"); cbn [snd];
        eexists; split; reflexivity.
Qed.

End MainFacts.

(** ** The status of WAL archiving *)

Module WalArchiverFacts.

Import stdpp.base stdpp.gmap stdpp.strings.
Import WalArchiver.

Lemma query_settings_spec (postgres : PostgreSQLConnection)
  (status : gmap string value) :
  (forall name e, get_setting postgres name = Raise e -> caught e = true) ->
  let mode := get_setting postgres "archive_mode" in
  let command := get_setting postgres "archive_command" in
  exists status',
    query_settings postgres status = Ok status'
    /\ status' !! "archive_mode"
       = (if is_ok mode then Some (known mode) else status !! "archive_mode")
    /\ status' !! "archive_command"
       = (if is_ok mode && is_ok command then Some (known command)
          else status !! "archive_command")
    /\ (forall k, k <> "archive_mode" -> k <> "archive_command" ->
          status' !! k = status !! k).
Proof.
  intros Hcaught. cbv zeta. unfold query_settings.
  destruct (get_setting postgres "archive_mode") as [mode|e] eqn:Hmode.
  - destruct (get_setting postgres "archive_command") as [command|e] eqn:Hcmd.
    + eexists. split; [reflexivity|]. cbn [is_ok andb known].
      split; [|split].
      * rewrite lookup_insert_ne by discriminate. apply lookup_insert_eq.
      * apply lookup_insert_eq.
      * intros k H1 H2. now rewrite !lookup_insert_ne by congruence.
    + rewrite (Hcaught _ _ Hcmd).
      eexists. split; [reflexivity|]. cbn [is_ok andb known].
      split; [|split].
      * apply lookup_insert_eq.
      * now rewrite lookup_insert_ne by discriminate.
      * intros k H1 H2. now rewrite lookup_insert_ne by congruence.
  - rewrite (Hcaught _ _ Hmode).
    eexists. split; [reflexivity|]. cbn [is_ok andb]. auto.
Qed.

(** [get_remote_status] returns a mapping whenever the probes of the
    settings either return or raise [PostgresConnectionError] or
    [psycopg2.Error], and [get_archiver_stats] returns the statistics or
    [None]. The mapping has the keys [archive_mode] and
    [archive_command]; where the statistics do not define them,
    [archive_mode] is the value of its setting, or [None] when the probe
    raised, and [archive_command] is the value of its setting, or [None]
    when its probe raised or was not reached; every other key is as the
    statistics have it. *)
Theorem get_remote_status_returns (postgres : PostgreSQLConnection) :
  (forall name e, get_setting postgres name = Raise e -> caught e = true) ->
  is_ok (get_archiver_stats postgres) = true ->
  let mode := get_setting postgres "archive_mode" in
  let command := get_setting postgres "archive_command" in
  let stats := statistics (get_archiver_stats postgres) in
  exists status,
    get_remote_status postgres = Ok status
    /\ is_Some (status !! "archive_mode")
    /\ is_Some (status !! "archive_command")
    /\ status !! "archive_mode"
       = Some (default (known mode) (stats !! "archive_mode"))
    /\ status !! "archive_command"
       = Some (default (if is_ok mode then known command else VNone)
                 (stats !! "archive_command"))
    /\ (forall k, k <> "archive_mode" -> k <> "archive_command" ->
          status !! k = stats !! k).
Proof.
  intros Hcaught Hstats. cbv zeta. unfold get_remote_status.
  destruct (query_settings_spec postgres
              (<["archive_mode" := VNone]> (<["archive_command" := VNone]> ∅))
              Hcaught) as (status & -> & Hmode & Hcmd & Hother).
  cbn [bind].
  rewrite lookup_insert_eq in Hmode.
  rewrite lookup_insert_ne, lookup_insert_eq in Hcmd by discriminate.
  assert (Hm : status !! "archive_mode"
               = Some (known (get_setting postgres "archive_mode"))).
  { rewrite Hmode. now destruct (get_setting postgres "archive_mode"). }
  assert (Hc : status !! "archive_command"
               = Some (if is_ok (get_setting postgres "archive_mode")
                       then known (get_setting postgres "archive_command")
                       else VNone)).
  { rewrite Hcmd. destruct (get_setting postgres "archive_mode");
      [|reflexivity].
    now destruct (get_setting postgres "archive_command"). }
  assert (Hrest : forall k, k <> "archive_mode" -> k <> "archive_command" ->
                    status !! k = None).
  { intros k H1 H2. rewrite Hother by assumption.
    now rewrite !lookup_insert_ne, lookup_empty by congruence. }
  clear Hmode Hcmd Hother.
  destruct (get_archiver_stats postgres) as [[stats|]|e];
    [| |discriminate Hstats]; cbn [bind statistics].
  - eexists. split; [reflexivity|].
    assert (Hu : forall k v, status !! k = v ->
              (stats ∪ status) !! k
              = match stats !! k with Some x => Some x | None => v end).
    { intros k v <-. rewrite lookup_union.
      destruct (stats !! k), (status !! k); reflexivity. }
    rewrite (Hu _ _ Hm), (Hu _ _ Hc).
    split; [destruct (stats !! "archive_mode"); eauto|].
    split; [destruct (stats !! "archive_command"); eauto|].
    split; [now destruct (stats !! "archive_mode")|].
    split; [now destruct (stats !! "archive_command")|].
    intros k H1 H2. rewrite (Hu _ _ (Hrest k H1 H2)).
    now destruct (stats !! k).
  - eexists. split; [reflexivity|].
    rewrite Hm, Hc, !lookup_empty.
    split; [eauto|]. split; [eauto|]. split; [reflexivity|].
    split; [reflexivity|].
    intros k H1 H2. rewrite lookup_empty. now apply Hrest.
Qed.

(** A connection that cannot be established, on a server whose
    statistics are asked for without an error: the status is returned,
    with both settings [None]. *)
Lemma unreachable_server_status :
  exists status,
    get_remote_status unreachable = Ok status
    /\ status !! "archive_mode" = Some VNone
    /\ status !! "archive_command" = Some VNone.
Proof.
  destruct (get_remote_status_returns unreachable)
    as (status & Hret & _ & _ & Hmode & Hcmd & _).
  - intros name e [= <-]. reflexivity.
  - reflexivity.
  - exists status. split; [exact Hret|]. split; [exact Hmode|exact Hcmd].
Defined.

(** The case of the test of [get_remote_status]: both settings are
    returned and the statistics hold one more key. *)
Example test_get_remote_status :
  get_remote_status
    {| get_setting := fun name =>
         if String.eqb name "archive_mode" then Ok (VStr "value1")
         else Ok (VStr "value2");
       get_archiver_stats :=
         Ok (Some (<["pg_stat_archiver" := VStr "value3"]> ∅)) |}
  = Ok (<["archive_mode" := VStr "value1"]>
          (<["archive_command" := VStr "value2"]>
             (<["pg_stat_archiver" := VStr "value3"]> ∅))).
Proof. vm_compute. reflexivity. Qed.

(** C7. On a server that is down every probe raises
    [PostgresConnectionError], an error of the classes that the [try]
    statement catches. The error of [get_setting] is caught there; the
    error of [get_archiver_stats], which is called after the [try]
    statement, is not: it leaves [get_remote_status], which returns no
    mapping. *)
Theorem C7_server_down_raises :
  caught connection_error = true
  /\ get_setting server_down "archive_mode" = Raise connection_error
  /\ get_archiver_stats server_down = Raise connection_error
  /\ get_remote_status server_down = Raise connection_error.
Proof. repeat split; reflexivity. Qed.

End WalArchiverFacts.

(** ** The compatibility of the WAL receiver *)

Module StreamingWalArchiverFacts.

Import StreamingWalArchiver.

Lemma below_9_3_spec (x : version) : below_9_3 x = true <-> lt_9_3 x.
Proof.
  unfold below_9_3, lt_9_3.
  rewrite orb_true_iff, andb_true_iff, Nat.ltb_lt, Nat.eqb_eq, Nat.ltb_lt.
  reflexivity.
Qed.

Lemma same_major_minor_spec (a b : version) :
  same_major_minor a b = true <-> major a = major b /\ minor a = minor b.
Proof.
  unfold same_major_minor. now rewrite andb_true_iff, !Nat.eqb_eq.
Qed.

Lemma major_minor_geb_spec (a b : version) :
  major_minor_geb a b = true <-> major_minor_le b a.
Proof.
  unfold major_minor_geb, major_minor_le.
  rewrite orb_true_iff, andb_true_iff, Nat.ltb_lt, Nat.eqb_eq, Nat.leb_le.
  intuition lia.
Qed.

(** C4. The compatibility of a receiver with a server depends on their
    major.minor only. When either is below 9.3 they are compatible
    exactly when their major.minor are equal; otherwise exactly when the
    major.minor of the receiver is at least that of the server. When the
    version of the server is not known the compatibility is [None]. The
    cases of the tests of the archiver follow: 9.2 with 9.2.0, 9.5 with
    9.2.0, 9.5 with 9.3.0, 9.3 with 9.5.0, 9.4.4 with 9.4.5, and a
    rejected streaming connection. *)
Theorem C4_receiver_compatibility (receiver server : version) :
  (forall p q,
     is_compatible (with_patch receiver p) (with_patch server q)
     = is_compatible receiver server)
  /\ (lt_9_3 receiver \/ lt_9_3 server ->
      (is_compatible receiver server = true <->
       major receiver = major server /\ minor receiver = minor server))
  /\ (~ (lt_9_3 receiver \/ lt_9_3 server) ->
      (is_compatible receiver server = true <->
       major_minor_le server receiver))
  /\ pg_receivexlog_compatible (Some receiver) (Some server)
     = Some (is_compatible receiver server)
  /\ pg_receivexlog_compatible (Some receiver) None = None
  /\ (pg_receivexlog_compatible (Some (v 9 2 0)) (Some (v 9 2 0)) = Some true
      /\ pg_receivexlog_compatible (Some (v 9 5 0)) (Some (v 9 2 0)) = Some false
      /\ pg_receivexlog_compatible (Some (v 9 5 0)) (Some (v 9 3 0)) = Some true
      /\ pg_receivexlog_compatible (Some (v 9 3 0)) (Some (v 9 5 0)) = Some false
      /\ pg_receivexlog_compatible (Some (v 9 4 4)) (Some (v 9 4 5)) = Some true
      /\ pg_receivexlog_compatible (Some (v 9 2 0)) None = None).
Proof.
  split; [reflexivity|].
  split; [|split; [|split; [reflexivity|split; [reflexivity|]]]].
  - intros Hlow. unfold is_compatible.
    replace (below_9_3 receiver || below_9_3 server) with true.
    + apply same_major_minor_spec.
    + symmetry. apply orb_true_iff.
      destruct Hlow as [H|H]; apply below_9_3_spec in H; auto.
  - intros Hhigh. unfold is_compatible.
    replace (below_9_3 receiver || below_9_3 server) with false.
    + apply major_minor_geb_spec.
    + symmetry. apply not_true_is_false. intros H.
      apply Hhigh. apply orb_true_iff in H.
      destruct H as [H|H]; apply below_9_3_spec in H; auto.
  - repeat split.
Qed.

(** C4 on a 9.2 receiver and a 9.2 server that differ in their patch. *)
Lemma C4_receiver_9_2_server_9_2 :
  is_compatible (v 9 2 0) (v 9 2 7) = true.
Proof.
  apply (proj1 (proj2 (C4_receiver_compatibility (v 9 2 0) (v 9 2 7)))).
  - left. right. simpl. lia.
  - split; reflexivity.
Defined.

End StreamingWalArchiverFacts.

(** ** The WAL catalog *)

Module XlogdbFacts.

Import Xlogdb.

Lemma append_assoc (a b c : string) : (a +:+ b) +:+ c = a +:+ (b +:+ c).
Proof. induction a as [|x a IH]; simpl; [reflexivity|now rewrite IH]. Qed.

Lemma free_of_append (c : ascii) (a b : string) :
  free_of c (a +:+ b) = free_of c a && free_of c b.
Proof.
  induction a as [|x a IH]; simpl; [reflexivity|].
  now rewrite IH, andb_assoc.
Qed.

Lemma split_on_nonempty (sep : ascii) (s : string) : split_on sep s <> [].
Proof.
  induction s as [|c s IH]; simpl; [discriminate|].
  destruct (Ascii.eqb c sep); [discriminate|].
  destruct (split_on sep s); discriminate.
Qed.

Lemma split_on_free (sep : ascii) (s : string) :
  free_of sep s = true -> split_on sep s = [s].
Proof.
  induction s as [|c s IH]; simpl; [reflexivity|].
  destruct (Ascii.eqb c sep); simpl; [discriminate|].
  intros H. now rewrite IH.
Qed.

Lemma split_on_sep (sep : ascii) (a b : string) :
  free_of sep a = true ->
  split_on sep (a +:+ String sep b) = a :: split_on sep b.
Proof.
  induction a as [|c a IH]; simpl.
  - now rewrite Ascii.eqb_refl.
  - destruct (Ascii.eqb c sep); simpl; [discriminate|].
    intros H. now rewrite IH.
Qed.

(** The numerals [str] writes hold digits only. *)
Lemma digits_free_of (c : ascii) (d : Decimal.uint) :
  (Nat.ltb (nat_of_ascii c) 48 || Nat.ltb 57 (nat_of_ascii c)) = true ->
  free_of c (NilEmpty.string_of_uint d) = true.
Proof.
  intros Hc.
  assert (Hd : forall x, (48 <= nat_of_ascii x <= 57)%nat ->
                 Ascii.eqb x c = false).
  { intros x Hx. apply Ascii.eqb_neq. intros ->.
    apply orb_true_iff in Hc. rewrite !Nat.ltb_lt in Hc. lia. }
  induction d; cbn [NilEmpty.string_of_uint free_of]; [reflexivity| ..];
    (rewrite IHd, Hd; [reflexivity|vm_compute; lia]).
Qed.

Lemma str_of_N_free_of_tab (n : N) : free_of tab (str_of_N n) = true.
Proof. apply digits_free_of. reflexivity. Qed.

Lemma str_of_N_free_of_newline (n : N) : free_of newline (str_of_N n) = true.
Proof. apply digits_free_of. reflexivity. Qed.

Lemma N_of_str_of_N (n : N) : N_of_str (str_of_N n) = Some n.
Proof.
  unfold N_of_str, str_of_N.
  destruct (NilEmpty.string_of_uint (N.to_uint n)) eqn:Hs.
  - exfalso.
    assert (Hnil : N.to_uint n = Decimal.Nil).
    { destruct (N.to_uint n); simpl in Hs; try discriminate. reflexivity. }
    destruct n as [|p]; [discriminate Hnil|].
    now apply (DecimalPos.Unsigned.to_uint_nonnil p).
  - rewrite <- Hs, NilEmpty.usu. simpl.
    now rewrite DecimalN.Unsigned.of_to.
Qed.

Lemma to_xlogdb_line_record (w : WalFileInfo) :
  to_xlogdb_line w = record w +:+ String newline "".
Proof.
  unfold to_xlogdb_line, record. simpl.
  rewrite !append_assoc. simpl. rewrite !append_assoc. simpl.
  now rewrite !append_assoc.
Qed.

Lemma record_free_of_newline (w : WalFileInfo) :
  well_formed w = true -> free_of newline (record w) = true.
Proof.
  unfold well_formed, record. rewrite !andb_true_iff.
  intros [[_ Hname] Hcomp].
  rewrite free_of_append, Hname. simpl.
  rewrite free_of_append, str_of_N_free_of_newline. simpl.
  rewrite free_of_append, str_of_N_free_of_newline. simpl.
  destruct (compression w) as [c|]; [|reflexivity].
  rewrite !andb_true_iff in Hcomp. tauto.
Qed.

Lemma from_xlogdb_line_record (w : WalFileInfo) :
  well_formed w = true -> from_xlogdb_line (record w) = Some w.
Proof.
  unfold well_formed, record, from_xlogdb_line. rewrite !andb_true_iff.
  intros [[Hname _] Hcomp].
  rewrite split_on_sep by assumption.
  rewrite split_on_sep by apply str_of_N_free_of_tab.
  rewrite split_on_sep by apply str_of_N_free_of_tab.
  destruct w as [n s t [c|]]; cbn [name size time compression] in *.
  - rewrite !andb_true_iff in Hcomp. destruct Hcomp as [[Htab _] Hnone].
    rewrite split_on_free by assumption.
    rewrite !N_of_str_of_N. apply negb_true_iff in Hnone. now rewrite Hnone.
  - rewrite split_on_free by reflexivity.
    now rewrite !N_of_str_of_N.
Qed.

Lemma from_lines_cons (line : string) (lines : list string) :
  lines <> [] ->
  from_lines (line :: lines)
  = match from_xlogdb_line line, from_lines lines with
    | Some w, Some ws => Some (w :: ws)
    | _, _ => None
    end.
Proof.
  intros H. destruct lines as [|l lines]; [contradiction|].
  destruct line; reflexivity.
Qed.

Lemma append_all (ws : list WalFileInfo) :
  forall catalog,
  fold_left append ws catalog
  = catalog +:+ String.concat "" (map to_xlogdb_line ws).
Proof.
  induction ws as [|w ws IH]; intros catalog; simpl.
  - clear. induction catalog; simpl; congruence.
  - rewrite IH. unfold append. rewrite append_assoc. f_equal.
    destruct ws as [|w' ws]; simpl; [|reflexivity].
    clear. induction (to_xlogdb_line w); simpl; congruence.
Qed.

Lemma read_lines (ws : list WalFileInfo) :
  forallb well_formed ws = true ->
  read (String.concat "" (map to_xlogdb_line ws)) = Some ws.
Proof.
  unfold read. induction ws as [|w ws IH]; [reflexivity|].
  cbn [forallb]. rewrite andb_true_iff. intros [Hw Hws].
  assert (Hcat : String.concat "" (map to_xlogdb_line (w :: ws))
                 = record w
                   +:+ String newline
                         (String.concat "" (map to_xlogdb_line ws))).
  { destruct ws as [|w' ws]; cbn [map String.concat].
    - apply to_xlogdb_line_record.
    - rewrite to_xlogdb_line_record, append_assoc. reflexivity. }
  rewrite Hcat, split_on_sep by now apply record_free_of_newline.
  rewrite from_lines_cons by apply split_on_nonempty.
  now rewrite from_xlogdb_line_record, IH.
Qed.

(** C9. A catalog line is the name, the size, the time and the
    compression, each followed by one tab but the last, which a newline
    follows; a null compression is written [None]. The line of the entry
    of the test is [test_name\t42\t43\tNone\n]. Entries appended to an
    empty catalog are written one after the other, byte for byte, and
    reading the catalog gives them back, as many and in the order they
    were appended, when no field holds a separator or spells the
    absent-value token. *)
Theorem C9_catalog_round_trip (ws : list WalFileInfo) :
  forallb well_formed ws = true ->
  (forall w,
     to_xlogdb_line w
     = name w +:+ String tab "" +:+ str_of_N (size w) +:+ String tab ""
       +:+ str_of_N (time w) +:+ String tab ""
       +:+ (match compression w with Some c => c | None => "None" end)
       +:+ String newline "")
  /\ to_xlogdb_line test_entry
     = "test_name" +:+ String tab "42" +:+ String tab "43"
       +:+ String tab "None" +:+ String newline ""
  /\ fold_left append ws "" = String.concat "" (map to_xlogdb_line ws)
  /\ read (fold_left append ws "") = Some ws
  /\ option_map (@length WalFileInfo) (read (fold_left append ws ""))
     = Some (length ws).
Proof.
  intros Hwf.
  assert (Hall : fold_left append ws ""
                 = String.concat "" (map to_xlogdb_line ws))
    by apply append_all.
  split; [intros w; reflexivity|].
  split; [reflexivity|].
  split; [exact Hall|].
  rewrite Hall, read_lines by assumption.
  split; reflexivity.
Qed.

(** C9 on a catalog of two entries. *)
Lemma C9_two_entries_read_back :
  read (fold_left append [test_entry; history_entry] "")
  = Some [test_entry; history_entry].
Proof.
  apply (C9_catalog_round_trip [test_entry; history_entry]).
  reflexivity.
Defined.

End XlogdbFacts.

(** * Further properties *)

(** ** The bytes an uploader sends *)

Module S3TarMoreFacts.

Import CloudLog.

Lemma part_bodies_app (a b : list cloud_call) :
  part_bodies (a ++ b) = part_bodies a ++ part_bodies b.
Proof. unfold part_bodies. apply flat_map_app. Qed.

Lemma part_bodies_part_calls (m k : string) (bodies : list bytes) :
  forall c, part_bodies (S3Tar.part_calls m k c bodies) = bodies.
Proof.
  induction bodies as [|b bodies IH]; intros c; [reflexivity|].
  simpl. f_equal. apply IH.
Qed.

Lemma spec_chunks_nonempty (cs : Z) (ws : list bytes) :
  forall cur, S3Tar.spec_chunks cs cur ws <> [].
Proof.
  induction ws as [|w ws IH]; intros cur; simpl; [discriminate|].
  destruct (cs <? Z.of_nat (length cur)); [discriminate|apply IH].
Qed.

Lemma spec_chunks_concat (cs : Z) (ws : list bytes) :
  forall cur, concat (S3Tar.spec_chunks cs cur ws) = cur ++ concat ws.
Proof.
  induction ws as [|w ws IH]; intros cur; simpl.
  - reflexivity.
  - destruct (cs <? Z.of_nat (length cur)); simpl; rewrite IH.
    + reflexivity.
    + now rewrite app_assoc.
Qed.

Lemma spec_chunks_over (cs : Z) (ws : list bytes) :
  forall cur,
  Forall (fun b => cs < Z.of_nat (length b))
    (removelast (S3Tar.spec_chunks cs cur ws)).
Proof.
  induction ws as [|w ws IH]; intros cur; simpl; [constructor|].
  destruct (cs <? Z.of_nat (length cur)) eqn:Hfull; [|apply IH].
  apply Z.ltb_lt in Hfull.
  change (cur :: S3Tar.spec_chunks cs w ws)
    with ([cur] ++ S3Tar.spec_chunks cs w ws).
  rewrite removelast_app by apply spec_chunks_nonempty.
  constructor; [exact Hfull|apply IH].
Qed.

Lemma longest_bound (ws : list bytes) (w : bytes) :
  In w ws -> Z.of_nat (length w) <= longest ws.
Proof.
  unfold longest. induction ws as [|x ws IH]; simpl; [contradiction|].
  intros [->|H]; [lia|]. apply IH in H. lia.
Qed.

Lemma longest_nonneg (ws : list bytes) : 0 <= longest ws.
Proof. unfold longest. induction ws; simpl; lia. Qed.

Lemma spec_chunks_bounded (cs bound : Z) (ws : list bytes) :
  0 <= cs ->
  (forall w, In w ws -> Z.of_nat (length w) <= bound) ->
  0 <= bound ->
  forall cur,
  Z.of_nat (length cur) <= cs + bound ->
  Forall (fun b => Z.of_nat (length b) <= cs + bound)
    (S3Tar.spec_chunks cs cur ws).
Proof.
  intros Hcs Hws Hbound.
  induction ws as [|w ws IH]; intros cur Hcur; simpl.
  - now constructor.
  - assert (Hw : Z.of_nat (length w) <= bound) by (apply Hws; now left).
    assert (Hrest : forall w', In w' ws -> Z.of_nat (length w') <= bound)
      by (intros w' H; apply Hws; now right).
    destruct (cs <? Z.of_nat (length cur)) eqn:Hfull.
    + constructor; [exact Hcur|]. apply IH; [exact Hrest|lia].
    + apply Z.ltb_ge in Hfull. apply IH; [exact Hrest|].
      rewrite length_app. lia.
Qed.

Lemma spec_chunks_count (cs : Z) (ws : list bytes) :
  forall cur,
  (1 <= length (S3Tar.spec_chunks cs cur ws) <= S (length ws))%nat.
Proof.
  induction ws as [|w ws IH]; intros cur; simpl; [lia|].
  destruct (cs <? Z.of_nat (length cur)); simpl.
  - specialize (IH w). lia.
  - specialize (IH (cur ++ w)). lia.
Qed.

Lemma spec_chunks_fits (cs : Z) (ws : list bytes) :
  forall cur,
  Z.of_nat (length (cur ++ concat ws)) <= cs ->
  S3Tar.spec_chunks cs cur ws = [cur ++ concat ws].
Proof.
  induction ws as [|w ws IH]; intros cur Hfit; simpl.
  - now rewrite app_nil_r.
  - simpl in Hfit. rewrite !length_app in Hfit.
    replace (cs <? Z.of_nat (length cur)) with false
      by (symmetry; apply Z.ltb_ge; lia).
    rewrite IH; [now rewrite app_assoc|].
    rewrite !length_app. lia.
Qed.

Section UploaderFacts.

Variable upload_id_of : string -> string.
Variable etag_of : string -> Z -> bytes -> string.

Local Abbreviation write_all := (S3Tar.write_all upload_id_of etag_of).
Local Abbreviation close := (S3Tar.close upload_id_of etag_of).

(** The parts a whole run uploads are the chunks of its writes. *)
Lemma run_part_bodies (k : string) (cs : Z) (ws trailer : list bytes) :
  let st := write_all ws (S3Tar.init k cs, []) in
  part_bodies (snd (close trailer (fst st) (snd st)))
  = S3Tar.spec_chunks cs [] (ws ++ trailer).
Proof.
  cbv zeta. rewrite S3TarFacts.close_after_writes. cbn [fst snd].
  rewrite S3TarFacts.close_chunks. cbn [snd S3Tar.init key mpu buffer
    chunk_size counter parts app].
  unfold S3Tar.creation. cbn [mpu S3Tar.init app].
  cbn [part_bodies flat_map app].
  change (flat_map _ ?l) with (part_bodies l).
  rewrite part_bodies_app, part_bodies_part_calls. cbn.
  now rewrite app_nil_r.
Qed.

(** X1. Whatever the uploader holds and whatever is written to it, the
    parts in the log after [close], put end to end, are the parts that
    were there before, the bytes left in the buffer and the bytes
    written, in order: no byte is lost, repeated or moved. *)
Theorem X1_parts_carry_all_bytes
  (u : S3TarUploader) (log : list cloud_call) (ws : list bytes) :
  concat (part_bodies (snd (close ws u log)))
  = concat (part_bodies log) ++ buffer u ++ concat ws.
Proof.
  rewrite S3TarFacts.close_chunks. cbn [snd].
  rewrite !part_bodies_app, part_bodies_part_calls.
  replace (part_bodies (S3Tar.creation u)) with (@nil bytes)
    by (unfold S3Tar.creation; now destruct (mpu u)).
  cbn [part_bodies flat_map app]. rewrite app_nil_r, concat_app.
  now rewrite spec_chunks_concat.
Qed.

(** X2. With a chunk size that is not negative, every part of a run but
    the last holds more than [chunk_size] bytes, and no part holds more
    than [chunk_size] bytes plus the longest single write: the buffer is
    bounded. *)
Theorem X2_part_sizes (k : string) (cs : Z) (ws trailer : list bytes) :
  0 <= cs ->
  let st := write_all ws (S3Tar.init k cs, []) in
  let bodies := part_bodies (snd (close trailer (fst st) (snd st))) in
  Forall (fun b => cs < Z.of_nat (length b)) (removelast bodies)
  /\ Forall (fun b => Z.of_nat (length b) <= cs + longest (ws ++ trailer))
       bodies.
Proof.
  intros Hcs. cbv zeta. rewrite run_part_bodies. split.
  - apply spec_chunks_over.
  - apply spec_chunks_bounded; auto using longest_bound, longest_nonneg.
    pose proof (longest_nonneg (ws ++ trailer)). simpl. lia.
Qed.

(** X3. A run always uploads at least one part, and at most one more
    than there were writes; a run whose bytes fit in the chunk size
    uploads them as a single part, which is empty when nothing was
    written. *)
Theorem X3_part_count (k : string) (cs : Z) (ws trailer : list bytes) :
  let st := write_all ws (S3Tar.init k cs, []) in
  let bodies := part_bodies (snd (close trailer (fst st) (snd st))) in
  (1 <= length bodies <= S (length (ws ++ trailer)))%nat
  /\ (Z.of_nat (length (concat (ws ++ trailer))) <= cs ->
      bodies = [concat (ws ++ trailer)]).
Proof.
  cbv zeta. rewrite run_part_bodies. split.
  - apply spec_chunks_count.
  - intros Hfit. now apply (spec_chunks_fits cs (ws ++ trailer) []).
Qed.

End UploaderFacts.

(** X2 on a run with a chunk size of 3 bytes. *)
Lemma X2_sample_sizes :
  Forall (fun b => 3 < Z.of_nat (length b))
    (removelast
       (part_bodies
          (snd (S3Tar.close (fun _ => "id") (fun _ _ _ => "etag") []
                  (fst (S3Tar.write_all (fun _ => "id") (fun _ _ _ => "etag")
                          [[Byte.x61; Byte.x61]; [Byte.x61; Byte.x61];
                           [Byte.x61]] (S3Tar.init "k" 3, [])))
                  (snd (S3Tar.write_all (fun _ => "id") (fun _ _ _ => "etag")
                          [[Byte.x61; Byte.x61]; [Byte.x61; Byte.x61];
                           [Byte.x61]] (S3Tar.init "k" 3, []))))))).
Proof.
  apply (X2_part_sizes (fun _ => "id") (fun _ _ _ => "etag") "k" 3
           [[Byte.x61; Byte.x61]; [Byte.x61; Byte.x61]; [Byte.x61]] []).
  lia.
Defined.

(** X3 on an uploader closed without a write: one empty part. *)
Lemma X3_sample_empty_part :
  part_bodies
    (snd (S3Tar.close (fun _ => "id") (fun _ _ _ => "etag") []
            (S3Tar.init "k" DEFAULT_CHUNK_SIZE) []))
  = [[]].
Proof.
  apply (X3_part_count (fun _ => "id") (fun _ _ _ => "etag") "k"
           DEFAULT_CHUNK_SIZE [] []).
  vm_compute. discriminate.
Defined.

End S3TarMoreFacts.

(** ** Archives and their members *)

Module ControllerMoreFacts.

Import Controller.



Lemma append_length (a b : string) :
  String.length (a +:+ b) = (String.length a + String.length b)%nat.
Proof. induction a as [|x a IH]; simpl; [reflexivity|now rewrite IH]. Qed.

Lemma append_inj_l (a x y : string) : a +:+ x = a +:+ y -> x = y.
Proof.
  induction a as [|c a IH]; simpl; [easy|].
  intros H. injection H as H. now apply IH.
Qed.

Lemma append_inj_r (s : string) :
  forall x y : string, x +:+ s = y +:+ s -> x = y.
Proof.
  induction x as [|c x IH]; intros [|d y] H; simpl in H.
  - reflexivity.
  - apply (f_equal String.length) in H. simpl in H.
    rewrite append_length in H. lia.
  - apply (f_equal String.length) in H. simpl in H.
    rewrite append_length in H. lia.
  - injection H as -> H. f_equal. now apply IH.
Qed.

Lemma startswith_slash_append (name suffix : string) :
  startswith name "/" = false -> startswith suffix "/" = false ->
  startswith (name +:+ suffix) "/" = false.
Proof. destruct name as [|c name]; simpl; auto. Qed.

Lemma path_join_inj (a x y : string) :
  startswith x "/" = false -> startswith y "/" = false ->
  path_join a x = path_join a y -> x = y.
Proof.
  unfold path_join. intros -> ->.
  destruct (String.eqb a "" || ends_with_char "/" a).
  - apply append_inj_l.
  - intros H. apply append_inj_l in H. now apply append_inj_l in H.
Qed.

Lemma build_dest_name_suffix (c : S3UploadController) :
  exists suffix : string,
    startswith suffix "/" = false
    /\ forall name, _build_dest_name c name = name +:+ suffix.
Proof.
  unfold _build_dest_name.
  destruct (compression c) as [s|]; [|exists ".tar"; split; reflexivity].
  repeat first
    [ solve [exists ".tar"; split; reflexivity]
    | solve [exists ".tar.gz"; split; reflexivity]
    | solve [exists ".tar.bz2"; split; reflexivity]
    | match goal with
      | s : string |- _ => destruct s as [|[[] [] [] [] [] [] [] []] s]
      end ].
Qed.

Lemma stream_key_inj (c : S3UploadController) (d1 d2 : string) :
  startswith d1 "/" = false -> startswith d2 "/" = false ->
  stream_key c d1 = stream_key c d2 -> d1 = d2.
Proof.
  unfold stream_key. intros H1 H2.
  destruct (build_dest_name_suffix c) as [suffix [Hs Hname]].
  rewrite !Hname. intros H. apply path_join_inj in H.
  - now apply append_inj_r in H.
  - now apply startswith_slash_append.
  - now apply startswith_slash_append.
Qed.

Section WithCollaborators.

Variable E : collaborators.

(** X4. [add_fileobj] adds one member to the archive of [dst], of the
    size of the file object, under [path]. The [uid] argument is never
    stored as the owner of the member, which stays 0: it goes to its
    group, unless a [gid] is given. The mode is [mode], or 0644. *)
Theorem X4_add_fileobj_member
  (label : string) (fileobj : bytes) (dst path : string)
  (mode uid gid : option Z) (c : S3UploadController) (log : list cloud_call) :
  exists ti : tarinfo,
    members (fst (add_fileobj E label fileobj dst path mode uid gid c log)) dst
    = members c dst ++ [tar_addfile ti fileobj]
    /\ ti_name ti = path
    /\ ti_size ti = Z.of_nat (length fileobj)
    /\ ti_uid ti = 0
    /\ ti_gid ti = match gid, uid with
                   | Some g, _ => g
                   | None, Some u => u
                   | None, None => 0
                   end
    /\ ti_mode ti = match mode with Some m => m | None => 420 end.
Proof.
  exists (fileobj_tarinfo fileobj path mode uid gid).
  unfold add_fileobj. rewrite ControllerFacts.members_on_tar, String.eqb_refl.
  split; [reflexivity|].
  destruct mode, uid, gid; repeat split; reflexivity.
Qed.

(** X5. Two destinations whose names do not start with a separator and
    that have no open archive get uploaders on different keys: no two
    archives of a backup are written to the same object. *)
Theorem X5_distinct_destinations_distinct_keys
  (c : S3UploadController) (d1 d2 : string) :
  opened c d1 = false -> opened c d2 = false ->
  startswith d1 "/" = false -> startswith d2 "/" = false ->
  d1 <> d2 ->
  key (snd (_get_tar c d1)) <> key (snd (_get_tar c d2)).
Proof.
  unfold opened, _get_tar. intros O1 O2 H1 H2 Hne.
  destruct (dict_get d1 (s3_list c)) as [[u1|]|]; try discriminate;
    destruct (dict_get d2 (s3_list c)) as [[u2|]|]; try discriminate;
    cbn [snd S3Tar.init key]; intros H; apply Hne;
    now apply (stream_key_inj c).
Qed.

(** X6. After [close], no destination has an open archive, and the next
    call that names a destination starts a new archive there: it holds
    the members of that call only, and its uploader is a fresh one on
    the key of the destination, with no multipart upload yet. *)
Theorem X6_closed_destination_is_reopened
  (c : S3UploadController) (log log' : list cloud_call)
  (call : controller_call) (dst : string) :
  NoDup (map fst (s3_list c)) ->
  call_dst E call = Some dst ->
  let c1 := fst (close E c log) in
  opened c1 dst = false
  /\ members (fst (fst (run_call E call c1 log'))) dst = call_members E call
  /\ snd (_get_tar c1 dst)
     = S3Tar.init (stream_key c dst) DEFAULT_CHUNK_SIZE.
Proof.
  intros Hnodup Hdst. cbv zeta. rewrite ControllerFacts.close_spec by assumption.
  cbn [fst].
  assert (Hget : forall d : list (string * option S3TarUploader),
            dict_get dst (map (fun e => (fst e, @None S3TarUploader)) d)
            = match dict_get dst d with
              | Some _ => Some None
              | None => None
              end).
  { induction d as [|[k v] d IH]; simpl; [reflexivity|].
    destruct (String.eqb dst k); [reflexivity|exact IH]. }
  assert (Hclosed : opened (set_s3_list c
            (map (fun e => (fst e, @None S3TarUploader)) (s3_list c))) dst
            = false).
  { unfold opened. cbn [s3_list set_s3_list]. rewrite Hget.
    now destruct (dict_get dst (s3_list c)). }
  assert (Hmem : members (set_s3_list c
            (map (fun e => (fst e, @None S3TarUploader)) (s3_list c))) dst
            = []).
  { unfold members. cbn [s3_list set_s3_list]. rewrite Hget.
    now destruct (dict_get dst (s3_list c)). }
  split; [exact Hclosed|]. split.
  - rewrite ControllerFacts.run_call_state, Hdst,
      ControllerFacts.members_on_tar, String.eqb_refl, Hmem.
    reflexivity.
  - unfold _get_tar. cbn [s3_list set_s3_list]. rewrite Hget.
    now destruct (dict_get dst (s3_list c)).
Qed.

Lemma walk_step_members (exclude include : option (list string))
  (src : string) (rel dirs files : list string) :
  (forall path is_dir, path_allowed E exclude include path is_dir = true) ->
  walk_step E exclude include src (rel, dirs, files)
  = tar_add (walk_root src rel) (relpath rel) false
    :: map (fun item =>
              tar_add (path_join (walk_root src rel) item)
                (path_join (relpath rel) item) true)
         files.
Proof.
  intros Hall. unfold walk_step. rewrite Hall. cbn [negb]. f_equal.
  induction files as [|f files IH]; [reflexivity|].
  cbn [flat_map map]. rewrite Hall. cbn [negb app]. now rewrite IH.
Qed.

Lemma walk_members (exclude include : option (list string)) (src : string) :
  (forall path is_dir, path_allowed E exclude include path is_dir = true) ->
  forall (t : tree) (rel : list string),
  flat_map (walk_step E exclude include src) (os_walk rel t)
  = Tree.tree_members src rel t.
Proof.
  intros Hall. fix IH 1. intros [subdirs files] rel.
  cbn [os_walk flat_map Tree.tree_members].
  rewrite walk_step_members by exact Hall.
  cbn [app]. f_equal. f_equal.
  induction subdirs as [|[n s] subdirs IHs]; [reflexivity|].
  cbn [flat_map fst snd]. now rewrite flat_map_app, IH, IHs.
Qed.

Lemma tree_members_length :
  forall (src : string) (t : tree) (rel : list string),
  length (Tree.tree_members src rel t)
  = (Tree.count_dirs t + Tree.count_files t)%nat.
Proof.
  intros src. fix IH 1. intros [subdirs files] rel.
  cbn [Tree.tree_members Tree.count_dirs Tree.count_files length].
  rewrite length_app, length_map.
  assert (Hsub :
    length (flat_map (fun p => Tree.tree_members src (rel ++ [fst p]) (snd p))
              subdirs)
    = (list_sum (map (fun p => Tree.count_dirs (snd p)) subdirs)
       + list_sum (map (fun p => Tree.count_files (snd p)) subdirs))%nat).
  { induction subdirs as [|[n s] subdirs IHs]; [reflexivity|].
    cbn [flat_map map list_sum fold_right fst snd].
    rewrite length_app, IH, IHs. unfold list_sum. lia. }
  rewrite Hsub. lia.
Qed.

(** X7. When the filter accepts every path, [upload_directory] adds to
    the archive the members of the whole tree, and nothing else: going
    down the tree, a directory before what is below it, each directory,
    the root included, as a member of its own that is not recursive,
    followed by each of its files under the path of the directory. That
    is one member for every directory and one for every file. *)
Theorem X7_unfiltered_directory_is_complete
  (exclude include : option (list string)) (label src dst : string)
  (t : tree) (c : S3UploadController) (log : list cloud_call) :
  fs_dir E src = Some t ->
  (forall path is_dir, path_allowed E exclude include path is_dir = true) ->
  members (fst (upload_directory E label src dst exclude include c log)) dst
  = members c dst ++ Tree.tree_members src [] t
  /\ length (Tree.tree_members src [] t)
     = (Tree.count_dirs t + Tree.count_files t)%nat.
Proof.
  intros Hdir Hall. split; [|apply tree_members_length].
  unfold upload_directory.
  rewrite ControllerFacts.members_on_tar, String.eqb_refl, Hdir.
  unfold walk_calls. now rewrite walk_members.
Qed.

End WithCollaborators.

Lemma path_join_relative (a b : string) :
  startswith a "/" = false -> startswith b "/" = false ->
  startswith (path_join a b) "/" = false.
Proof.
  unfold path_join. intros Ha Hb. rewrite Hb.
  destruct a as [|c a]; [exact Hb|].
  destruct (String.eqb (String c a) "" || ends_with_char "/" (String c a));
    exact Ha.
Qed.

Lemma init_prefix_relative (prefix : string) (compr : option string) :
  startswith prefix "//" = false ->
  startswith (key_prefix (Controller.init prefix compr)) "/" = false.
Proof.
  unfold Controller.init. cbn [key_prefix].
  destruct prefix as [|c prefix]; [reflexivity|].
  cbn [startswith drop_chars].
  destruct (Ascii.eqb "/" c) eqn:Hc; cbn [andb].
  - destruct prefix as [|d prefix]; [reflexivity|].
    cbn [startswith]. now destruct (Ascii.eqb "/" d).
  - intros _. cbn [startswith]. now rewrite Hc.
Qed.

(** X14. The keys of a controller are relative: when its prefix does not
    start with two separators and the destination does not start with
    one, neither the key of the archive of the destination nor the key
    of a plain upload to it starts with a separator. *)
Theorem X14_keys_are_relative
  (prefix : string) (compr : option string) (label dst : string)
  (fileobj : bytes) (log : list cloud_call) :
  startswith prefix "//" = false -> startswith dst "/" = false ->
  let c := Controller.init prefix compr in
  startswith (key (snd (_get_tar c dst))) "/" = false
  /\ exists k, snd (upload_fileobj_to label fileobj dst c log)
               = log ++ [upload_fileobj k fileobj]
               /\ startswith k "/" = false.
Proof.
  intros Hprefix Hdst. cbv zeta.
  pose proof (init_prefix_relative prefix compr Hprefix) as Hrel. split.
  - unfold _get_tar. cbn [s3_list Controller.init dict_get snd S3Tar.init key].
    destruct (build_dest_name_suffix (Controller.init prefix compr))
      as (suffix & Hsuffix & Hname).
    apply path_join_relative; [exact Hrel|].
    rewrite Hname. now apply startswith_slash_append.
  - eexists. split; [reflexivity|]. now apply path_join_relative.
Qed.

(** X14 on the prefix of the sample run. *)
Lemma X14_sample_key :
  startswith
    (key (snd (Controller._get_tar (Controller.init "/main/base/1" None)
                 "data"))) "/"
  = false.
Proof.
  apply (X14_keys_are_relative "/main/base/1" None "label" "data" [] []);
    reflexivity.
Defined.

(** X5 on the destinations of a tablespace and of the data directory. *)
Lemma X5_sample_keys :
  key (snd (Controller._get_tar (Controller.init "/main/base/1" None) "16387"))
  <> key (snd (Controller._get_tar (Controller.init "/main/base/1" None) "data")).
Proof.
  apply (X5_distinct_destinations_distinct_keys
           (Controller.init "/main/base/1" None) "16387" "data");
    [reflexivity|reflexivity|reflexivity|reflexivity|discriminate].
Defined.

(** X6 on the sample run: after [close], a file added to [data] is the
    only member of a new archive. *)
Lemma X6_sample_reopened :
  Controller.members
    (fst (fst (Controller.run_call Sample.world
                 (add_file_call "config_file" "/etc/postgresql.conf" "data"
                    "postgresql.conf" false)
                 (fst (Controller.close Sample.world
                         (fst (fst Sample.after_calls)) []))
                 [])))
    "data"
  = [tar_add "/etc/postgresql.conf" "postgresql.conf" true].
Proof.
  apply (X6_closed_destination_is_reopened Sample.world
           (fst (fst Sample.after_calls)) [] []
           (add_file_call "config_file" "/etc/postgresql.conf" "data"
              "postgresql.conf" false) "data").
  - vm_compute. repeat constructor; simpl; intuition discriminate.
  - reflexivity.
Defined.

(** X7 on the sample source tree, with no filter: three directories and
    three files. *)
Lemma X7_sample_six_members :
  Controller.members
    (fst (Controller.upload_directory Sample.world "src" "/srv/src"
            "data" None None (Controller.init "/main/base/1" None) []))
    "data"
  = [tar_add "/srv/src" "." false;
     tar_add "/srv/src/top" "./top" true;
     tar_add "/srv/src/a" "a" false;
     tar_add "/srv/src/a/g" "a/g" true;
     tar_add "/srv/src/a/sub" "a/sub" false;
     tar_add "/srv/src/a/sub/f" "a/sub/f" true].
Proof.
  apply (X7_unfiltered_directory_is_complete Sample.world None None "src"
           "/srv/src" "data" Sample.src_tree
           (Controller.init "/main/base/1" None) []).
  - reflexivity.
  - reflexivity.
Defined.

End ControllerMoreFacts.

(** ** The copy of a backup *)

Module BackupMoreFacts.

Import Controller BackupCopy.

Section WithCollaborators.

Variable E : collaborators.

(** Whatever the outcome of a sequence of calls, the dict keeps its
    shape, and no upload is completed. *)
Lemma run_calls_any (calls : list controller_call) :
  forall (c : S3UploadController) (log : list cloud_call),
  NoDup (map fst (s3_list c)) -> streams_open c ->
  let c' := fst (fst (run_calls E calls c log)) in
  NoDup (map fst (s3_list c')) /\ streams_open c'
  /\ key_prefix c' = key_prefix c /\ compression c' = compression c
  /\ exists events, snd (fst (run_calls E calls c log)) = log ++ events
                    /\ filter S3Tar.is_complete events = [].
Proof.
  induction calls as [|call calls IH]; intros c log Hnodup Hopen; cbv zeta.
  - cbn [run_calls fst snd]. repeat (split; [assumption || reflexivity|]).
    exists []. now rewrite app_nil_r.
  - cbn [run_calls].
    pose proof (ControllerFacts.run_call_state E call c log) as Hstate.
    destruct (ControllerFacts.run_call_log E call c log)
      as (events & Hlog & Hnone).
    assert (Hinv : NoDup (map fst (s3_list (fst (fst (run_call E call c log)))))
                   /\ streams_open (fst (fst (run_call E call c log)))
                   /\ key_prefix (fst (fst (run_call E call c log)))
                      = key_prefix c
                   /\ compression (fst (fst (run_call E call c log)))
                      = compression c).
    { rewrite Hstate. destruct (call_dst E call) as [dst|]; [|auto].
      destruct (ControllerFacts.on_tar_invariant E dst (call_members E call)
                  c log Hnodup Hopen) as (H1 & H2 & H3 & H4 & _).
      auto. }
    destruct (run_call E call c log) as [[c1 log1] [e|]];
      cbn [fst snd] in Hlog, Hinv |- *.
    + destruct Hinv as (H1 & H2 & H3 & H4).
      repeat (split; [assumption|]). exists events. auto.
    + destruct Hinv as (H1 & H2 & H3 & H4).
      destruct (IH c1 log1 H1 H2) as (I1 & I2 & I3 & I4 & events' & I5 & I6).
      split; [exact I1|]. split; [exact I2|].
      split; [congruence|]. split; [congruence|].
      exists (events ++ events'). rewrite I5, Hlog, app_assoc.
      split; [reflexivity|]. now rewrite filter_app, Hnone, I6.
Qed.

(** X8. [backup_copy] never uploads a file brought in by an [include]
    directive: after the two directory stages and [pg_control], it adds
    the other external configuration files, each once and in their
    order, to the [data] archive, under their base names. *)
Theorem X8_include_files_are_not_copied (backup_info : BackupInfo) :
  skipn (length (tablespaces backup_info) + 2)
    (backup_copy_calls E backup_info)
  = map (fun cf => add_file_call (file_type cf) (cf_path cf) "data"
                     (basename (cf_path cf))
                     (String.eqb (file_type cf) "ident_file"))
      (filter (fun cf => negb (String.eqb (file_type cf) "include"))
         (external_config_files backup_info)).
Proof.
  rewrite BackupCopyFacts.backup_copy_calls_eq.
  rewrite <- (length_map (tablespace_call E) (tablespaces backup_info)).
  rewrite skipn_app.
  rewrite skipn_all2 by lia.
  replace (length (map (tablespace_call E) (tablespaces backup_info)) + 2
           - length (map (tablespace_call E) (tablespaces backup_info)))%nat
    with 2%nat by lia.
  cbn [app skipn]. rewrite skipn_O.
  induction (external_config_files backup_info) as [|cf files IH];
    [reflexivity|].
  cbn [config_file_calls flat_map filter].
  fold (config_file_calls files). rewrite IH.
  now destruct (String.eqb (file_type cf) "include").
Qed.




End WithCollaborators.


End BackupMoreFacts.

(** ** The entry point, the bucket and the status of WAL archiving *)

Module RunFacts.

Import Outcomes.

(** X11. A run with [--test] is a dry run: what [head_bucket], the
    creation of the bucket and the backup would do has no part in its
    result nor in its events. A run without [--test] does not depend on
    the connectivity test. *)
Theorem X11_test_run_uploads_nothing (env : Environment) (config : Config)
  (head create backup load : result unit) :
  if config_test config
  then Main.main (with_upload env head create backup) config
       = Main.main env config
  else Main.main (with_load env load) config = Main.main env config.
Proof.
  unfold Main.main, Main.try_block, with_upload, with_load.
  cbn [urlparse boto3_resource postgres_new bucket_load head_bucket
       bucket_create uploader_backup].
  destruct (config_test config) eqn:Htest; reflexivity.
Qed.

(** X12. [setup_bucket] returns exactly when the bucket is there, or
    when [head_bucket] fails with a [ClientError] of code 404 and the
    bucket is then created. It creates the bucket in no other case, and
    an exception it raises is the one [head_bucket] or the creation
    raised, unchanged. *)
Theorem X12_setup_bucket_outcome (head create : result unit) :
  (Cloud.setup_bucket head create = Ok tt <->
   head = Ok tt
   \/ exists e, head = Raise e /\ isinstance e "ClientError" = true
                /\ exn_code e = "404" /\ create = Ok tt)
  /\ (forall create', (forall e, head = Raise e ->
                         isinstance e "ClientError" = false
                         \/ exn_code e <> "404") ->
        Cloud.setup_bucket head create' = Cloud.setup_bucket head create)
  /\ (forall e, Cloud.setup_bucket head create = Raise e ->
        head = Raise e \/ create = Raise e).
Proof.
  unfold Cloud.setup_bucket. split; [|split].
  - destruct head as [[]|e].
    + split; auto.
    + destruct (isinstance e "ClientError") eqn:Hclass.
      * destruct (String.eqb (exn_code e) "404") eqn:Hcode.
        -- apply String.eqb_eq in Hcode. split.
           ++ intros ->. right. exists e. auto.
           ++ intros [H|(e' & [= <-] & _ & _ & ->)];
                [discriminate|reflexivity].
        -- apply String.eqb_neq in Hcode. split; [discriminate|].
           intros [H|(e' & [= <-] & _ & H & _)];
             [discriminate|contradiction].
      * split; [discriminate|].
        intros [H|(e' & [= <-] & H & _)]; [discriminate|congruence].
  - intros create' Hother. destruct head as [[]|e]; [reflexivity|].
    destruct (Hother e eq_refl) as [->|Hcode]; [reflexivity|].
    apply String.eqb_neq in Hcode. rewrite Hcode.
    now destruct (isinstance e "ClientError").
  - intros e. destruct head as [[]|e0]; [discriminate|].
    destruct (isinstance e0 "ClientError");
      [destruct (String.eqb (exn_code e0) "404")|]; auto.
Qed.

(** X13. [get_remote_status] raises exactly in three cases: the probe of
    [archive_mode] raises an exception that is not of the two classes
    caught; that probe returns and the probe of [archive_command] raises
    such an exception; or the [try] statement is left normally and
    [get_archiver_stats] raises. The exception raised is that of the
    probe. *)
Theorem X13_get_remote_status_raises
  (postgres : WalArchiver.PostgreSQLConnection) (e : exn) :
  WalArchiver.get_remote_status postgres = Raise e <->
  (WalArchiver.get_setting postgres "archive_mode" = Raise e
   /\ WalArchiver.caught e = false)
  \/ (is_ok (WalArchiver.get_setting postgres "archive_mode") = true
      /\ WalArchiver.get_setting postgres "archive_command" = Raise e
      /\ WalArchiver.caught e = false)
  \/ (settings_pass postgres = true
      /\ WalArchiver.get_archiver_stats postgres = Raise e).
Proof.
  unfold WalArchiver.get_remote_status, WalArchiver.query_settings,
    settings_pass.
  destruct (WalArchiver.get_setting postgres "archive_mode") as [mode|e1];
    [destruct (WalArchiver.get_setting postgres "archive_command")
       as [command|e2];
     [|destruct (WalArchiver.caught e2) eqn:Hcaught]
    |destruct (WalArchiver.caught e1) eqn:Hcaught];
    cbn [bind is_ok];
    try (destruct (WalArchiver.get_archiver_stats postgres) as [[stats|]|e3];
         cbn [bind]);
    (split;
     [ intros H; try discriminate H; injection H as <-; auto
     | intros [[H1 H2]|[(H1 & H2 & H3)|[H1 H2]]];
       try discriminate; congruence ]).
Qed.

End RunFacts.

(** ** The command line *)

Module CommandLineFacts.

Import Logging Conninfo.

(** X15. The level [configure_logging] sets is never below [DEBUG]: two
    [-v] or more all give [DEBUG], and below that each [-v] lowers the
    level by 10 and each [-q] raises it by 10, without a bound: from
    three [-q] on, the level is above [CRITICAL]. *)
Theorem X15_log_level (verbose quiet : nat) :
  DEBUG <= configure_logging verbose quiet
  /\ ((quiet + 2 <= verbose)%nat -> configure_logging verbose quiet = DEBUG)
  /\ ((verbose <= quiet + 2)%nat ->
      configure_logging verbose quiet
      = WARNING - 10 * (Z.of_nat verbose - Z.of_nat quiet))
  /\ ((verbose + 3 <= quiet)%nat -> CRITICAL < configure_logging verbose quiet).
Proof.
  unfold configure_logging, DEBUG, WARNING, CRITICAL. repeat split; lia.
Qed.




Section WithPattern.

Variable whitespace : ascii -> bool.


End WithPattern.


End CommandLineFacts.

Module CliFacts.

Import stdpp.base stdpp.gmap stdpp.strings.
Import Cli.

Lemma split_first_append (name location : string) :
  split_first ":" name = None ->
  split_first ":" (name +:+ String ":" location) = Some (name, location).
Proof.
  induction name as [|c name IH]; intros Hname; [reflexivity|].
  cbn [split_first String.append] in *.
  destruct (Ascii.eqb c ":"); [discriminate|].
  destruct (split_first ":" name) as [[before after]|]; [discriminate|].
  now rewrite IH.
Qed.

Lemma relocation_rules_app (a b : list string) :
  forall tablespaces : gmap string string,
  relocation_rules (a ++ b) tablespaces
  = (fst (relocation_rules b (fst (relocation_rules a tablespaces))),
     snd (relocation_rules a tablespaces)
     ++ snd (relocation_rules b (fst (relocation_rules a tablespaces)))).
Proof.
  induction a as [|rule a IH]; intros tablespaces.
  - cbn. now destruct (relocation_rules b tablespaces).
  - cbn [relocation_rules app].
    destruct (split_first ":" rule) as [[name location]|].
    + apply IH.
    + rewrite IH.
      destruct (relocation_rules a tablespaces) as [t lines]. reflexivity.
Qed.

Lemma relocation_rules_valid (rules : list string) :
  forall tablespaces : gmap string string,
  relocation_rules rules tablespaces
  = (fst (relocation_rules (List.filter has_two_fields rules) tablespaces),
     List.map (fun rule => "Invalid tablespace relocation rule " +:+ rule)
       (List.filter (fun rule => negb (has_two_fields rule)) rules)).
Proof.
  induction rules as [|rule rules IH]; intros tablespaces; [reflexivity|].
  cbn [relocation_rules List.filter].
  destruct (split_first ":" rule) as [[name location]|] eqn:Hsplit.
  - replace (has_two_fields rule) with true
      by (unfold has_two_fields; now rewrite Hsplit).
    cbn [negb relocation_rules]. rewrite Hsplit. apply IH.
  - replace (has_two_fields rule) with false
      by (unfold has_two_fields; now rewrite Hsplit).
    cbn [negb]. rewrite IH. reflexivity.
Qed.

Lemma relocation_rules_others (name : string) (rules : list string) :
  Forall (fun rule => forall location,
            split_first ":" rule <> Some (name, location)) rules ->
  forall tablespaces : gmap string string,
  fst (relocation_rules rules tablespaces) !! name = tablespaces !! name.
Proof.
  induction 1 as [|rule rules Hrule _ IH]; intros tablespaces; [reflexivity|].
  cbn [relocation_rules].
  destruct (split_first ":" rule) as [[name' location]|] eqn:Hsplit.
  - rewrite IH. apply lookup_insert_ne. intros ->. now apply (Hrule location).
  - specialize (IH tablespaces).
    destruct (relocation_rules rules tablespaces) as [t lines]. exact IH.
Qed.

(** X17. A relocation rule is cut at its first colon, so that the
    location may hold colons, and the last rule given for a tablespace
    is the one the recovery gets: whatever the rules before the rule
    [name:location], and whatever the rules after it, as long as none of
    them is a rule for [name] (they may be rules for other tablespaces
    or rules without a colon), the mapping sends [name] to [location];
    and rules that do not name a tablespace do not put it in the
    mapping. *)
Theorem X17_last_relocation_rule_wins
  (before after : list string) (name location : string) :
  split_first ":" name = None ->
  Forall (fun rule => forall location',
            split_first ":" rule <> Some (name, location')) after ->
  fst (relocation_rules (before ++ [name +:+ String ":" location] ++ after) ∅)
    !! name
  = Some location
  /\ fst (relocation_rules after ∅) !! name = None.
Proof.
  intros Hname Hafter. split.
  - rewrite !relocation_rules_app. cbn [fst].
    rewrite relocation_rules_others by exact Hafter.
    cbn [relocation_rules].
    rewrite (split_first_append name location Hname). cbn [fst].
    apply lookup_insert_eq.
  - rewrite relocation_rules_others by exact Hafter. apply lookup_empty.
Qed.

(** X18. A rule without a colon does not stop [recover]: each such rule
    yields one line, in the order of the rules, and the recovery then
    runs with the mapping that the other rules alone give. An unknown
    server yields one line and nothing is recovered. *)
Theorem X18_invalid_rules_are_reported_and_skipped
  (server_recover : gmap string string -> list string)
  (server_name : string) (rules : list string) :
  recover (Some server_recover) server_name rules
  = List.map (fun rule => "Invalid tablespace relocation rule " +:+ rule)
      (List.filter (fun rule => negb (has_two_fields rule)) rules)
    ++ server_recover
         (fst (relocation_rules (List.filter has_two_fields rules) ∅))
  /\ snd (relocation_rules (List.filter has_two_fields rules) ∅) = []
  /\ recover None server_name rules
     = ["Unknown server '" +:+ server_name +:+ "'"].
Proof.
  split; [|split].
  - unfold recover. rewrite relocation_rules_valid. reflexivity.
  - rewrite relocation_rules_valid. cbn [snd].
    induction rules as [|rule rules IH]; [reflexivity|].
    cbn [List.filter]. destruct (has_two_fields rule) eqn:Hrule; [|exact IH].
    cbn [List.filter]. rewrite Hrule. exact IH.
  - reflexivity.
Qed.

(** X17 on two rules for [tbs1], the second with a colon in its
    location, followed by a rule for [tbs2] and a rule without a colon:
    the second rule for [tbs1] wins. *)
Lemma X17_sample_rules :
  fst (relocation_rules
         (["tbs1:/old"] ++ ["tbs1" +:+ String ":" "/mnt/a:b"]
          ++ ["tbs2:/b"; "tbs3"]) ∅) !! "tbs1"
  = Some "/mnt/a:b"
  /\ fst (relocation_rules ["tbs2:/b"; "tbs3"] ∅) !! "tbs1" = None.
Proof.
  apply (X17_last_relocation_rule_wins ["tbs1:/old"] ["tbs2:/b"; "tbs3"]
           "tbs1" "/mnt/a:b").
  - reflexivity.
  - repeat constructor; intros location'; vm_compute; discriminate.
Defined.

End CliFacts.

(** ** The bytes of the archives *)

Module ArchiveFacts.

Import Controller Archive.

Lemma bodies_of_app (k : string) (a b : list cloud_call) :
  bodies_of k (a ++ b) = bodies_of k a ++ bodies_of k b.
Proof. unfold bodies_of. apply flat_map_app. Qed.

Lemma bodies_of_creation (k : string) (u : S3TarUploader) :
  bodies_of k (S3Tar.creation u) = [].
Proof. unfold S3Tar.creation. now destruct (mpu u). Qed.

Lemma bodies_of_part_calls_eq (m k : string) (bodies : list bytes) :
  forall c, bodies_of k (S3Tar.part_calls m k c bodies) = bodies.
Proof.
  induction bodies as [|b bodies IH]; intros c; [reflexivity|].
  cbn [S3Tar.part_calls bodies_of flat_map]. rewrite String.eqb_refl.
  cbn [app]. f_equal. apply IH.
Qed.

Lemma bodies_of_part_calls_ne (m k k' : string) (bodies : list bytes) :
  k <> k' -> forall c, bodies_of k' (S3Tar.part_calls m k c bodies) = [].
Proof.
  intros Hne. apply String.eqb_neq in Hne.
  induction bodies as [|b bodies IH]; intros c; [reflexivity|].
  cbn [S3Tar.part_calls bodies_of flat_map]. rewrite Hne.
  cbn [app]. apply IH.
Qed.

Lemma In_dict_get {V : Type} (k : string) (v : V) (d : list (string * V)) :
  NoDup (map fst d) -> In (k, v) d -> dict_get k d = Some v.
Proof.
  induction d as [|[k' v'] d IH]; intros Hnodup Hin; [contradiction|].
  cbn [map fst] in Hnodup. inversion Hnodup as [|? ? Hnotin Hrest]; subst.
  cbn [dict_get]. destruct Hin as [[= -> ->]|Hin].
  - now rewrite String.eqb_refl.
  - destruct (String.eqb k k') eqn:Hk.
    + apply String.eqb_eq in Hk. subst k'. exfalso. apply Hnotin.
      apply in_map_iff. now exists (k, v).
    + now apply IH.
Qed.

Section WithCollaborators.

Variable E : collaborators.

Local Abbreviation write_all := (S3Tar.write_all (upload_id_of E) (etag_of E)).

Lemma tar_stream_app (a b : list tar_call) :
  forall before,
  tar_stream E before (a ++ b)
  = tar_stream E before a ++ tar_stream E (before ++ a) b.
Proof.
  induction a as [|m a IH]; intros before; cbn [app tar_stream].
  - now rewrite app_nil_r.
  - rewrite IH, <- !app_assoc. reflexivity.
Qed.

(** The parts a sequence of writes uploads are parts of the key of the
    uploader, and with the buffer they hold the bytes written. *)
Lemma write_all_bytes (ws : list bytes) :
  forall st : S3TarUploader * list cloud_call,
  exists events,
    snd (write_all ws st) = snd st ++ events
    /\ (forall k, k <> key (fst st) -> bodies_of k events = [])
    /\ concat (bodies_of (key (fst st)) events) ++ buffer (fst (write_all ws st))
       = buffer (fst st) ++ concat ws.
Proof.
  unfold S3Tar.write_all.
  induction ws as [|w ws IH]; intros [u log]; simpl.
  - exists []. rewrite !app_nil_r. auto.
  - destruct (IH (S3Tar.write (upload_id_of E) (etag_of E) u log w))
      as (ev & Hlog & Hother & Hbytes).
    rewrite Hlog. clear Hlog.
    rewrite S3TarFacts.write_effect in *. cbn [fst snd key buffer] in *.
    destruct (chunk_size u <? Z.of_nat (length (buffer u))).
    + eexists. rewrite <- app_assoc. split; [reflexivity|]. split.
      * intros k Hk. rewrite !bodies_of_app, bodies_of_creation, Hother by auto.
        cbn [bodies_of flat_map app].
        replace (String.eqb (key u) k) with false; [reflexivity|].
        symmetry. apply String.eqb_neq. congruence.
      * rewrite !bodies_of_app, bodies_of_creation.
        cbn [bodies_of flat_map app]. rewrite String.eqb_refl.
        cbn [app concat]. fold (bodies_of (key u) ev).
        rewrite <- !app_assoc. now rewrite Hbytes.
    + rewrite app_nil_r in *. exists ev.
      split; [reflexivity|]. split; [exact Hother|].
      rewrite Hbytes. now rewrite app_assoc.
Qed.

Lemma tar_apply_bytes (calls : list tar_call) :
  forall st : S3TarUploader * list cloud_call,
  exists events,
    snd (fold_left (tar_apply E) calls st) = snd st ++ events
    /\ (forall k, k <> key (fst st) -> bodies_of k events = [])
    /\ concat (bodies_of (key (fst st)) events)
       ++ buffer (fst (fold_left (tar_apply E) calls st))
       = buffer (fst st) ++ concat (tar_stream E (tar (fst st)) calls).
Proof.
  induction calls as [|call calls IH]; intros [u log];
    cbn [fold_left fst snd tar_stream].
  - exists []. rewrite !app_nil_r. auto.
  - destruct (IH (tar_apply E (u, log) call)) as (ev & Hlog & Hother & Hbytes).
    rewrite Hlog. clear IH Hlog.
    unfold tar_apply in *.
    destruct (S3TarFacts.write_all_preserves (upload_id_of E) (etag_of E)
                (tar_writes E (tar u) call) (u, log)) as (Hk & _ & _).
    destruct (write_all_bytes (tar_writes E (tar u) call) (u, log))
      as (ev1 & Hlog1 & Hother1 & Hbytes1).
    destruct (S3Tar.write_all _ _ _ (u, log)) as [u1 log1].
    cbn [fst snd key tar buffer set_tar] in *. subst log1.
    exists (ev1 ++ ev). rewrite <- app_assoc.
    split; [reflexivity|]. split.
    + intros k Hne. rewrite bodies_of_app, Hother1 by assumption.
      apply Hother. congruence.
    + rewrite bodies_of_app, !concat_app, <- !app_assoc.
      rewrite Hk in Hbytes. rewrite Hbytes.
      rewrite !app_assoc. now rewrite Hbytes1.
Qed.

Lemma entry_key (c : S3UploadController) (dst : string) (u : S3TarUploader) :
  streams_open c ->
  dict_get dst (s3_list c) = Some (Some u) -> key u = stream_key c dst.
Proof.
  intros Hopen Hget. apply ControllerFacts.dict_get_In in Hget.
  unfold streams_open in Hopen. rewrite Forall_forall in Hopen.
  apply (Hopen _ Hget).
Qed.

Lemma accounted_extended (c : S3UploadController)
  (log events : list cloud_call) :
  (forall k, bodies_of k events = []) ->
  accounted E c log -> accounted E c (log ++ events).
Proof.
  intros Hnone [Hold Hfresh]. split.
  - intros dst u Hget. destruct (Hold dst u Hget) as [Hrel Hbytes].
    split; [exact Hrel|]. now rewrite bodies_of_app, Hnone, app_nil_r.
  - intros dst Hrel Hget. rewrite bodies_of_app, Hnone, app_nil_r. auto.
Qed.

Lemma on_tar_accounted (dst : string) (calls : list tar_call)
  (c : S3UploadController) (log : list cloud_call) :
  startswith dst "/" = false ->
  streams_open c -> accounted E c log ->
  accounted E (fst (on_tar E dst calls c log)) (snd (on_tar E dst calls c log)).
Proof.
  intros Hdst Hopen [Hold Hfresh]. unfold on_tar.
  assert (Hget :
    key (snd (_get_tar c dst)) = stream_key c dst
    /\ concat (bodies_of (stream_key c dst) log) ++ buffer (snd (_get_tar c dst))
       = concat (tar_stream E [] (tar (snd (_get_tar c dst))))
    /\ key_prefix (fst (_get_tar c dst)) = key_prefix c
    /\ compression (fst (_get_tar c dst)) = compression c
    /\ forall d, d <> dst ->
         dict_get d (s3_list (fst (_get_tar c dst))) = dict_get d (s3_list c)).
  { unfold _get_tar.
    destruct (dict_get dst (s3_list c)) as [[u|]|] eqn:Hg; cbn [fst snd].
    - pose proof (entry_key c dst u Hopen Hg) as Hk.
      split; [exact Hk|]. rewrite <- Hk.
      split; [apply (Hold dst u Hg)|]. auto.
    - exfalso. apply ControllerFacts.dict_get_In in Hg.
      unfold streams_open in Hopen. rewrite Forall_forall in Hopen.
      apply (Hopen _ Hg).
    - cbn [set_s3_list s3_list key_prefix compression key buffer tar S3Tar.init].
      split; [reflexivity|]. rewrite (Hfresh dst Hdst Hg).
      split; [reflexivity|]. split; [reflexivity|]. split; [reflexivity|].
      intros d Hd. apply ControllerFacts.dict_get_set_ne. congruence. }
  destruct (_get_tar c dst) as [c1 u]. cbn [fst snd] in Hget.
  destruct Hget as (Hk & Hinit & Hp & Hc & Hsame).
  destruct (ControllerFacts.tar_apply_all E calls (u, log)) as (Hk1 & Ht1 & _).
  destruct (tar_apply_bytes calls (u, log)) as (ev & Hlog & Hother & Hbytes).
  destruct (fold_left (tar_apply E) calls (u, log)) as [u1 log1].
  cbn [fst snd set_s3_list s3_list] in *. subst log1.
  assert (Hkey : forall d, stream_key (set_s3_list c1
                   (dict_set dst (Some u1) (s3_list c1))) d = stream_key c d).
  { intros d. unfold stream_key, _build_dest_name.
    cbn [key_prefix compression set_s3_list]. now rewrite Hp, Hc. }
  split.
  - intros d u' Hd. cbn [s3_list set_s3_list] in Hd.
    destruct (String.eqb d dst) eqn:Heq.
    + apply String.eqb_eq in Heq. subst d.
      rewrite ControllerFacts.dict_get_set_eq in Hd. injection Hd as <-.
      split; [exact Hdst|].
      rewrite Hk1, Hk, bodies_of_app, concat_app, <- app_assoc.
      rewrite Hk in Hbytes. rewrite Hbytes, app_assoc, Hinit, Ht1.
      now rewrite tar_stream_app, concat_app.
    + apply String.eqb_neq in Heq.
      rewrite ControllerFacts.dict_get_set_ne in Hd by congruence.
      rewrite Hsame in Hd by assumption.
      destruct (Hold d u' Hd) as [Hrel Hb]. split; [exact Hrel|].
      rewrite bodies_of_app, Hother, app_nil_r; [exact Hb|].
      rewrite (entry_key c d u' Hopen Hd), Hk. intros Heqk.
      apply Heq. now apply (ControllerMoreFacts.stream_key_inj c).
  - intros d Hrel Hnone. cbn [s3_list set_s3_list] in Hnone. rewrite Hkey.
    destruct (String.eqb d dst) eqn:Heq.
    + apply String.eqb_eq in Heq. subst d.
      rewrite ControllerFacts.dict_get_set_eq in Hnone. discriminate.
    + apply String.eqb_neq in Heq.
      rewrite ControllerFacts.dict_get_set_ne in Hnone by congruence.
      rewrite Hsame in Hnone by assumption.
      rewrite bodies_of_app, (Hfresh d Hrel Hnone), Hother; [reflexivity|].
      rewrite Hk. intros Heqk.
      apply Heq. now apply (ControllerMoreFacts.stream_key_inj c).
Qed.

Lemma run_call_accounted (call : controller_call)
  (c : S3UploadController) (log : list cloud_call) :
  match call_dst E call with
  | Some dst => startswith dst "/" = false
  | None => True
  end ->
  streams_open c -> accounted E c log ->
  accounted E (fst (fst (run_call E call c log)))
    (snd (fst (run_call E call c log))).
Proof.
  intros Hdst Hopen Hacc.
  destruct call as [label src dst exclude include|label src dst path optional
                   |label fileobj dst path mode uid gid|label fileobj dst];
    cbn [run_call call_dst fst snd] in *.
  - now apply on_tar_accounted.
  - unfold add_file.
    destruct (optional && negb (fs_exists E src)); [exact Hacc|].
    destruct (fs_exists E src); cbn [fst snd]; now apply on_tar_accounted.
  - now apply on_tar_accounted.
  - unfold upload_fileobj_to. cbn [fst snd].
    now apply accounted_extended.
Qed.

Lemma run_calls_accounted (calls : list controller_call) :
  forall (c : S3UploadController) (log : list cloud_call),
  relative_destinations E calls ->
  NoDup (map fst (s3_list c)) -> streams_open c -> accounted E c log ->
  accounted E (fst (fst (run_calls E calls c log)))
    (snd (fst (run_calls E calls c log))).
Proof.
  induction calls as [|call calls IH]; intros c log Hrel Hnodup Hopen Hacc;
    [exact Hacc|].
  inversion Hrel as [|? ? Hcall Hrest]; subst.
  pose proof (run_call_accounted call c log Hcall Hopen Hacc) as Hstep.
  pose proof (BackupMoreFacts.run_calls_any E [call] c log Hnodup Hopen)
    as Hinv.
  cbv zeta in Hinv. cbn [run_calls] in Hinv |- *.
  destruct (run_call E call c log) as [[c1 log1] [e|]];
    cbn [fst snd] in Hstep, Hinv |- *.
  - exact Hstep.
  - destruct Hinv as (H1 & H2 & _). now apply IH.
Qed.

Lemma bodies_of_close_events (k : string) (u : S3TarUploader) :
  bodies_of k (close_events E u)
  = if String.eqb (key u) k
    then S3Tar.spec_chunks (chunk_size u) (buffer u)
           (tar_close_writes E (tar u))
    else [].
Proof.
  unfold close_events. rewrite !bodies_of_app, bodies_of_creation.
  cbn [app bodies_of flat_map]. fold (bodies_of k). rewrite app_nil_r.
  destruct (String.eqb (key u) k) eqn:Hk.
  - apply String.eqb_eq in Hk. subst k. apply bodies_of_part_calls_eq.
  - apply String.eqb_neq in Hk. now apply bodies_of_part_calls_ne.
Qed.

(** Closing the uploaders of other destinations uploads nothing on the
    key of a destination. *)
Lemma bodies_of_other_closes (c : S3UploadController) (dst : string)
  (d : list (string * option S3TarUploader)) :
  startswith dst "/" = false ->
  (forall k u, In (k, Some u) d ->
     k <> dst /\ startswith k "/" = false /\ key u = stream_key c k) ->
  bodies_of (stream_key c dst) (flat_map (entry_close_events E) d) = [].
Proof.
  intros Hdst. induction d as [|[k [u|]] d IH]; intros Hall; [reflexivity| |].
  - cbn [flat_map entry_close_events snd].
    rewrite bodies_of_app, bodies_of_close_events.
    destruct (Hall k u (or_introl eq_refl)) as (Hne & Hrel & Hk).
    replace (String.eqb (key u) (stream_key c dst)) with false.
    + apply IH. intros k' u' Hin. apply Hall. now right.
    + symmetry. apply String.eqb_neq. rewrite Hk. intros Heq.
      apply Hne. now apply (ControllerMoreFacts.stream_key_inj c).
  - cbn [flat_map entry_close_events snd app].
    apply IH. intros k' u' Hin. apply Hall. now right.
Qed.

(** X20. A run of calls that goes through and names destinations
    without a leading separator, followed by [close], uploads for each
    archive it opened the tar archive of the members of that archive:
    the parts uploaded on the key of the destination, put end to end in
    the order of the log, are what the encoder wrote for the members, in
    the order they were added, and what it wrote when it was closed.
    The archives of other destinations, whose parts are interleaved in
    the log, take no part in it. *)
Theorem X20_archive_is_the_tar_stream
  (prefix : string) (compr : option string) (calls : list controller_call)
  (c : S3UploadController) (log : list cloud_call) (dst : string) :
  run_calls E calls (Controller.init prefix compr) [] = (c, log, None) ->
  relative_destinations E calls ->
  opened c dst = true ->
  concat (bodies_of (stream_key c dst) (snd (close E c log)))
  = archive_bytes E (members c dst).
Proof.
  intros Hrun Hrel Hopened.
  assert (Hnodup0 : NoDup (map fst (s3_list (Controller.init prefix compr))))
    by constructor.
  assert (Hopen0 : streams_open (Controller.init prefix compr))
    by constructor.
  assert (Hacc0 : accounted E (Controller.init prefix compr) []).
  { split; [discriminate|reflexivity]. }
  pose proof (run_calls_accounted calls _ [] Hrel Hnodup0 Hopen0 Hacc0)
    as [Hold _].
  destruct (ControllerFacts.run_calls_spec E calls _ [] c log Hnodup0 Hopen0
              Hrun) as (Hnodup & Hopen & _).
  rewrite Hrun in Hold. cbn [fst snd] in Hold.
  unfold opened in Hopened. unfold members.
  destruct (dict_get dst (s3_list c)) as [[u|]|] eqn:Hget; try discriminate.
  destruct (Hold dst u Hget) as [Hdst Hbytes].
  pose proof (entry_key c dst u Hopen Hget) as Hk.
  rewrite ControllerFacts.close_spec by exact Hnodup. cbn [snd].
  rewrite bodies_of_app, concat_app.
  apply ControllerFacts.dict_get_In in Hget.
  destruct (in_split _ _ Hget) as (pre & post & Hsplit).
  assert (Hothers : forall k u', In (k, Some u') (pre ++ post) ->
            k <> dst /\ startswith k "/" = false /\ key u' = stream_key c k).
  { intros k u' Hin.
    assert (Hin' : In (k, Some u') (s3_list c)).
    { rewrite Hsplit. apply in_app_iff. apply in_app_iff in Hin.
      destruct Hin; [now left|right; now right]. }
    pose proof (In_dict_get k (Some u') (s3_list c) Hnodup Hin') as Hg.
    split; [|split; [apply (Hold k u' Hg)|now apply entry_key]].
    intros ->. rewrite Hsplit, map_app in Hnodup. cbn [map fst] in Hnodup.
    apply NoDup_remove_2 in Hnodup. apply Hnodup.
    rewrite <- map_app. apply in_map_iff. now exists (dst, Some u'). }
  rewrite Hsplit, flat_map_app. cbn [flat_map entry_close_events snd].
  rewrite !bodies_of_app.
  rewrite (bodies_of_other_closes c dst pre Hdst)
    by (intros k u' Hin; apply Hothers, in_app_iff; now left).
  rewrite (bodies_of_other_closes c dst post Hdst)
    by (intros k u' Hin; apply Hothers, in_app_iff; now right).
  rewrite bodies_of_close_events, <- Hk, String.eqb_refl, app_nil_r.
  cbn [app]. rewrite S3TarMoreFacts.spec_chunks_concat, app_assoc, Hbytes.
  reflexivity.
Qed.

End WithCollaborators.

(** X20 on the sample run: the parts uploaded on the key of [data] hold
    the archive of its members. *)
Lemma X20_sample_data_archive :
  concat (Archive.bodies_of
            (Controller.stream_key (fst (fst Sample.after_calls)) "data")
            (snd (Controller.close Sample.world (fst (fst Sample.after_calls))
                    (snd (fst Sample.after_calls)))))
  = Archive.archive_bytes Sample.world
      (Controller.members (fst (fst Sample.after_calls)) "data").
Proof.
  apply (X20_archive_is_the_tar_stream Sample.world "/main/base/1" None
           Sample.calls).
  - vm_compute. reflexivity.
  - unfold Archive.relative_destinations, Sample.calls.
    repeat constructor.
  - vm_compute. reflexivity.
Defined.

End ArchiveFacts.
